(** * n8n-nodes-grpc: the dynamic-protocol helpers

    A shallow embedding of [src/helpers/protoParser.ts] and
    [src/helpers/grpcClient.ts], and the properties their specification
    states about them.

    Conventions.
    - A JavaScript string is a [string]: one character per UTF-16 code
      unit, for the code units below 256.  White space and line
      terminators are the ECMAScript ones of that range.
    - JavaScript integers are [Z]; byte buffers are [list byte].
    - An object is the list of its own enumerable properties in iteration
      order; a well-formed object has no repeated key.
    - A function that can throw returns an [Outcome]. *)

From Stdlib Require Import String Ascii List ZArith NArith Bool Arith Lia.
From Stdlib Require Import Strings.Byte Numbers.DecimalString Numbers.DecimalNat.
Import ListNotations.

Local Open Scope string_scope.
Local Open Scope list_scope.
Local Open Scope nat_scope.

(** ** JavaScript strings *)

Module JsString.

Definition chars (s : string) : list ascii := list_ascii_of_string s.

Definition of_chars (l : list ascii) : string := string_of_list_ascii l.

(** ECMAScript [WhiteSpace] and [LineTerminator] below U+0100:
    TAB, LF, VT, FF, CR, SP and NBSP.  The class [\s] and
    [String.prototype.trim] use the same set. *)
Definition isWhiteSpace (c : ascii) : bool :=
  let n := nat_of_ascii c in
  (9 <=? n) && (n <=? 13) || (n =? 32) || (n =? 160).

(** LF and CR: where [^] and [$] match under the [m] flag. *)
Definition isLineTerminator (c : ascii) : bool :=
  let n := nat_of_ascii c in (n =? 10) || (n =? 13).

Fixpoint dropWhile (p : ascii -> bool) (l : list ascii) : list ascii :=
  match l with
  | [] => []
  | c :: r => if p c then dropWhile p r else l
  end.

Definition trimStartChars (l : list ascii) : list ascii :=
  dropWhile isWhiteSpace l.

Definition trimEndChars (l : list ascii) : list ascii :=
  rev (dropWhile isWhiteSpace (rev l)).

Definition trimChars (l : list ascii) : list ascii :=
  trimEndChars (trimStartChars l).

(** [s.trim()] *)
Definition trim (s : string) : string := of_chars (trimChars (chars s)).

(** Truthiness of a string: [""] is the only falsy one. *)
Definition truthy (s : string) : bool :=
  match s with EmptyString => false | String _ _ => true end.

(** [s.slice(from, to)] for indices within [0 .. length]. *)
Definition sliceChars (l : list ascii) (from to : nat) : list ascii :=
  firstn (to - from) (skipn from l).

Definition slice (s : string) (from to : nat) : string :=
  of_chars (sliceChars (chars s) from to).

(** [c.toLowerCase()] on one code unit below 256: A-Z, and the Latin-1
    capitals U+00C0..U+00DE except the multiplication sign U+00D7. *)
Definition lowerChar (c : ascii) : ascii :=
  let n := nat_of_ascii c in
  if (65 <=? n) && (n <=? 90) then ascii_of_nat (n + 32)
  else if (192 <=? n) && (n <=? 222) && negb (n =? 215)
       then ascii_of_nat (n + 32)
  else c.

Definition toLowerCase (s : string) : string :=
  of_chars (map lowerChar (chars s)).

(** [s.split(sep).pop()] for a one-character separator: the part
    after the last separator, the whole string when there is none. *)
Fixpoint lastSegmentChars (sep : ascii) (l : list ascii) : list ascii :=
  match l with
  | [] => []
  | c :: r =>
      if existsb (Ascii.eqb sep) l then lastSegmentChars sep r else l
  end.

Definition includesChar (sep : ascii) (s : string) : bool :=
  existsb (Ascii.eqb sep) (chars s).

Definition splitPop (sep : ascii) (s : string) : string :=
  of_chars (lastSegmentChars sep (chars s)).

End JsString.

(** ** A backtracking matcher for the regular expressions of the source

    The fragment the delimiter expression needs: literal characters,
    greedy [*] and [+] over a character class, the anchors [^] and [$]
    under the [m] flag, and one capturing group.  Alternatives are tried
    in the order a backtracking engine tries them: a greedy repetition
    first takes one more character, and gives it back when the rest of
    the pattern fails. *)

Module Regex.

Inductive Atom : Type :=
  | Chr (c : ascii)
  | Star (cls : ascii -> bool)
  | Plus (cls : ascii -> bool)
  | Bol
  | Eol
  | GroupOpen
  | GroupClose.

Definition Pattern := list Atom.

(** A successful match: [index] and [stop] delimit [match[0]],
    [group_from] and [group_to] delimit [match[1]]. *)
Record Match : Type := mkMatch {
    index : nat;
    stop : nat;
    group_from : nat;
    group_to : nat
  }.

(** The matcher's position: the character before it, the input left,
    the offset, and the group bounds recorded so far. *)
Definition Cont := option ascii -> list ascii -> nat -> option (nat * nat * nat).

Definition greedy (cls : ascii -> bool) (k : Cont) : Cont :=
  fix star (prev : option ascii) (s : list ascii) (pos : nat) :=
    match s with
    | c :: r =>
        if cls c then
          match star (Some c) r (S pos) with
          | Some m => Some m
          | None => k prev s pos
          end
        else k prev s pos
    | [] => k prev s pos
    end.

Definition atBol (prev : option ascii) : bool :=
  match prev with
  | None => true
  | Some c => JsString.isLineTerminator c
  end.

Definition atEol (s : list ascii) : bool :=
  match s with
  | [] => true
  | c :: _ => JsString.isLineTerminator c
  end.

(** [run pat gf gt prev s pos]: match [pat] at offset [pos]; the result
    is the end offset and the bounds of group 1. *)
Fixpoint run (pat : Pattern) (gf gt : nat) : Cont :=
  fun prev s pos =>
  match pat with
  | [] => Some (pos, gf, gt)
  | Chr c :: pat' =>
      match s with
      | x :: r => if Ascii.eqb x c then run pat' gf gt (Some x) r (S pos) else None
      | [] => None
      end
  | Star cls :: pat' => greedy cls (run pat' gf gt) prev s pos
  | Plus cls :: pat' =>
      match s with
      | x :: r => if cls x then greedy cls (run pat' gf gt) (Some x) r (S pos) else None
      | [] => None
      end
  | Bol :: pat' => if atBol prev then run pat' gf gt prev s pos else None
  | Eol :: pat' => if atEol s then run pat' gf gt prev s pos else None
  | GroupOpen :: pat' => run pat' pos gt prev s pos
  | GroupClose :: pat' => run pat' gf pos prev s pos
  end.

Definition matchAt (pat : Pattern) (prev : option ascii) (s : list ascii)
    (pos : nat) : option Match :=
  match run pat pos pos prev s pos with
  | Some (e, gf, gt) => Some (mkMatch pos e gf gt)
  | None => None
  end.

(** The [g] flag: the search resumes at the end of the last match (one
    further after an empty match).  [skip] counts the characters still
    covered by the last match. *)
Fixpoint scan (pat : Pattern) (prev : option ascii) (s : list ascii)
    (pos skip : nat) : list Match :=
  match s with
  | [] =>
      match skip with
      | 0 => match matchAt pat prev [] pos with
             | Some m => [m]
             | None => []
             end
      | S _ => []
      end
  | c :: r =>
      match skip with
      | S k => scan pat (Some c) r (S pos) k
      | 0 =>
          match matchAt pat prev s pos with
          | Some m => m :: scan pat (Some c) r (S pos) (stop m - pos - 1)
          | None => scan pat (Some c) r (S pos) 0
          end
      end
  end.

(** [[...s.matchAll(re)]] *)
Definition matchAll (pat : Pattern) (s : string) : list Match :=
  scan pat None (JsString.chars s) 0 0.

(** [match[1]] *)
Definition group1 (s : string) (m : Match) : string :=
  JsString.slice s (group_from m) (group_to m).

Definition lit (s : string) : Pattern := map Chr (JsString.chars s).

End Regex.

(** ** [helpers/types.ts] *)

Record ProtoFile : Type := mkProtoFile {
    filename : string;
    content : string
  }.

Record MetadataEntry : Type := mkMetadataEntry {
    key : option string;
    value : option string
  }.

(** ** [helpers/protoParser.ts]: the proto text splitter *)

Module ProtoParser.

Import Regex.

Definition isEquals (c : ascii) : bool := Ascii.eqb c "=".

Definition notBracketOrEquals (c : ascii) : bool :=
  negb (Ascii.eqb c "]" || Ascii.eqb c "=").

(** [/^\[\[=+\s*([^\]=]+\.proto)\s*=+\]\]\s*$/gm] *)
Definition delimiterRegex : Pattern :=
  [Bol] ++ lit "[[" ++ [Plus isEquals; Star JsString.isWhiteSpace;
    GroupOpen; Plus notBracketOrEquals] ++ lit ".proto" ++
  [GroupClose; Star JsString.isWhiteSpace; Plus isEquals] ++ lit "]]" ++
  [Star JsString.isWhiteSpace; Eol].

Definition noMatch : Match := mkMatch 0 0 0 0.

(** The body of the [for] loop at index [i]. *)
Definition splitStep (text : string) (matches : list Match)
    (files : list ProtoFile) (i : nat) : list ProtoFile :=
  let m := nth i matches noMatch in
  let name := JsString.trim (group1 text m) in
  let startIndex := stop m in
  let endIndex :=
    if i + 1 <? length matches then index (nth (i + 1) matches noMatch)
    else String.length text in
  let fileContent := JsString.trim (JsString.slice text startIndex endIndex) in
  if JsString.truthy fileContent
  then files ++ [mkProtoFile name fileContent]
  else files.

Definition parseDelimitedProtoContent (text : string) : list ProtoFile :=
  if negb (JsString.truthy text) || negb (JsString.truthy (JsString.trim text))
  then []
  else
    let matches := matchAll delimiterRegex text in
    if length matches =? 0
    then [mkProtoFile "main.proto" (JsString.trim text)]
    else fold_left (splitStep text matches) (seq 0 (length matches)) [].

End ProtoParser.

(** ** JavaScript values *)

#[local] Set Warnings "-register-all".

Inductive JsValue : Type :=
  | JUndefined
  | JNull
  | JBool (b : bool)
  | JNum (n : Z)
  | JStr (s : string)
  | JBytes (b : list byte)                    (* Buffer, Uint8Array *)
  | JArr (items : list JsValue)
  | JObj (props : list (string * JsValue)).

Definition Props := list (string * JsValue).

Inductive JsError : Type :=
  | Error (message : string)
  | TypeError (message : string).

Definition errorMessage (e : JsError) : string :=
  match e with Error m => m | TypeError m => m end.

(** What a call does: return, throw, or leave the fragment of JavaScript
    this development gives a meaning to (coercions of ill-typed
    arguments inside Node and protobufjs). *)
Inductive Outcome (A : Type) : Type :=
  | Returns (a : A)
  | Throws (e : JsError)
  | Unmodelled.

Arguments Returns {A} a.
Arguments Throws {A} e.
Arguments Unmodelled {A}.

Definition bind {A B : Type} (m : Outcome A) (f : A -> Outcome B) : Outcome B :=
  match m with
  | Returns a => f a
  | Throws e => Throws e
  | Unmodelled => Unmodelled
  end.

(** The error of a call that throws. *)
Definition thrown {A : Type} (o : Outcome A) : option JsError :=
  match o with
  | Throws e => Some e
  | _ => None
  end.

Declare Scope outcome_scope.
Delimit Scope outcome_scope with outcome.
Notation "'let*' x ':=' m 'in' k" := (bind m (fun x => k))
  (at level 10, x name, m at level 100, k at level 200) : outcome_scope.
Local Open Scope outcome_scope.

Module Js.

(** ToBoolean *)
Definition truthy (v : JsValue) : bool :=
  match v with
  | JUndefined | JNull => false
  | JBool b => b
  | JNum n => negb (n =? 0)%Z
  | JStr s => JsString.truthy s
  | JBytes _ | JArr _ | JObj _ => true
  end.

(** [o[k]] on own properties *)
Fixpoint get (k : string) (o : Props) : JsValue :=
  match o with
  | [] => JUndefined
  | (k', v) :: r => if String.eqb k' k then v else get k r
  end.

(** [k in o], for the keys this code asks about, none of which is on
    [Object.prototype] *)
Definition has (k : string) (o : Props) : bool :=
  existsb (fun kv => String.eqb (fst kv) k) o.

(** [o[k] = v]: an existing property keeps its place *)
Fixpoint set (k : string) (v : JsValue) (o : Props) : Props :=
  match o with
  | [] => [(k, v)]
  | (k', v') :: r =>
      if String.eqb k' k then (k', v) :: r else (k', v') :: set k v r
  end.

(** [o[k] = v].  The name [__proto__] is not a property a plain object
    has but an accessor it inherits: the assignment sets the prototype,
    when [v] is an object or [null], and adds no property of that name.
    Prototypes are not part of this model, in which an object is the
    list of its own properties: the assignment leaves the list as it
    is. *)
Definition assign (k : string) (v : JsValue) (o : Props) : Props :=
  if String.eqb k "__proto__" then o else set k v o.

(** [{ ...base, ...extra }] *)
Definition spread (base extra : Props) : Props :=
  fold_left (fun o kv => set (fst kv) (snd kv) o) extra base.

(** [const { [k]: _, ...rest } = o] *)
Definition omit (k : string) (o : Props) : Props :=
  filter (fun kv => negb (String.eqb (fst kv) k)) o.

(** Decimal rendering of an array index and of an integer *)
Definition natToString (n : nat) : string :=
  NilEmpty.string_of_uint (Nat.to_uint n).

Definition intToString (n : Z) : string :=
  NilEmpty.string_of_int (Z.to_int n).

(** [Object.entries(buf)] of a byte buffer: its indices *)
Definition bufferEntries (b : list byte) : Props :=
  map (fun ib => (natToString (fst ib), JNum (Z.of_N (Byte.to_N (snd ib)))))
      (combine (seq 0 (length b)) b).

(** An object has each of its keys once. *)
Definition wellFormed (o : Props) : Prop := NoDup (map fst o).

Definition base64Alphabet : string :=
  "ABCDEFGHIJKLMNOPQRSTUVWXYZabcdefghijklmnopqrstuvwxyz0123456789+/".

Definition sextet (n : N) : ascii :=
  match String.get (N.to_nat n) base64Alphabet with
  | Some c => c
  | None => "="%char
  end.

(** [buf.toString('base64')] *)
Fixpoint base64 (l : list byte) : string :=
  match l with
  | [] => ""
  | [a] =>
      let x := Byte.to_N a in
      String (sextet (N.shiftr x 2))
        (String (sextet (N.shiftl (N.land x 3) 4)) "==")
  | [a; b] =>
      let x := Byte.to_N a in
      let y := Byte.to_N b in
      String (sextet (N.shiftr x 2))
        (String (sextet (N.lor (N.shiftl (N.land x 3) 4) (N.shiftr y 4)))
          (String (sextet (N.shiftl (N.land y 15) 2)) "="))
  | a :: b :: c :: r =>
      let x := Byte.to_N a in
      let y := Byte.to_N b in
      let z := Byte.to_N c in
      String (sextet (N.shiftr x 2))
        (String (sextet (N.lor (N.shiftl (N.land x 3) 4) (N.shiftr y 4)))
          (String (sextet (N.lor (N.shiftl (N.land y 15) 2) (N.shiftr z 6)))
            (String (sextet (N.land z 63)) (base64 r))))
  end.

End Js.

(** ** The protobufjs runtime

    The calls this code makes into [protobufjs], as an interface.  A
    [protobuf.Root] is mutated in place by [parse] and [resolveAll]; here
    they return the root after the call, together with the error when
    the call throws.  [lookupType] throws an error that its callers only
    log: [None] stands for the throw.  [encode] is
    [encode(message).finish()]. *)

Record IConversionOptions : Type := mkConversionOptions {
    longsAsString : bool;      (* longs: String *)
    enumsAsString : bool;      (* enums: String *)
    bytesAsString : bool;      (* bytes: String *)
    defaults : bool            (* defaults: true *)
  }.

Class Protobuf : Type := {
    Root : Type;
    MessageType : Type;
    Message : Type;
    newRoot : Root;
    setResolvePath : (string -> string -> string) -> Root -> Root;
    parse : string -> Root -> Root * option JsError;
    resolveAll : Root -> Root * option JsError;
    lookupType : Root -> string -> option MessageType;
    verify : MessageType -> Props -> Outcome (option string);
    create : MessageType -> Props -> Outcome Message;
    encode : MessageType -> Message -> Outcome (list byte);
    decode : MessageType -> list byte -> Outcome Message;
    toObject : MessageType -> Message -> IConversionOptions -> Outcome Props
  }.

(** ** [helpers/grpcClient.ts]: metadata and the Any codec *)

(** [grpc.Metadata.add] checks the key and the value it is given and
    throws when it refuses them.  The checks are those of
    [@grpc/grpc-js], not of this repository: [validate key value] is the
    error [add] throws for them, if it throws. *)
Class GrpcMetadata : Type := {
    validate : string -> string -> option JsError
  }.

(** A [grpc.Metadata] object, as the sequence of the headers its [add]
    has accepted. *)
Module Metadata.

Definition t := list (string * string).

Definition empty : t := [].

Definition add {lib : GrpcMetadata} (k v : string) (m : t) : Outcome t :=
  match validate k v with
  | Some e => Throws e
  | None => Returns (m ++ [(k, v)])
  end.

End Metadata.

Module GrpcCodec.

(** [entry.key?.trim()] *)
Definition optTrim (s : option string) : option string :=
  option_map JsString.trim s.

Section WithMetadata.

Context {lib : GrpcMetadata}.

(** One turn of the loop of [createMetadata]. *)
Definition addEntry (metadata : Metadata.t) (entry : MetadataEntry)
    : Outcome Metadata.t :=
  match optTrim (key entry), optTrim (value entry) with
  | Some k, Some v =>
      if JsString.truthy k && JsString.truthy v
      then Metadata.add (JsString.toLowerCase k) v metadata
      else Returns metadata
  | _, _ => Returns metadata
  end.

Fixpoint addEntries (entries : list MetadataEntry) (metadata : Metadata.t)
    : Outcome Metadata.t :=
  match entries with
  | [] => Returns metadata
  | entry :: rest =>
      let* metadata' := addEntry metadata entry in
      addEntries rest metadata'
  end.

(** [createMetadata]: the first header [add] refuses ends the loop with
    the error of [add]. *)
Definition createMetadata (entries : list MetadataEntry) : Outcome Metadata.t :=
  addEntries entries Metadata.empty.

End WithMetadata.

(** [typeUrl.includes('/') ? typeUrl.split('/').pop()! : typeUrl] *)
Definition typeNameOf (typeUrl : string) : string :=
  if JsString.includesChar "/" typeUrl
  then JsString.splitPop "/" typeUrl
  else typeUrl.

Definition decodeOptions : IConversionOptions :=
  mkConversionOptions true true true true.

Section WithRuntime.

Context {pb : Protobuf}.

(** [root.lookupType(typeName)], and on a throw
    [root.lookupType('.' + typeName)] *)
Definition resolveType (root : Root) (typeName : string) : option MessageType :=
  match lookupType root typeName with
  | Some t => Some t
  | None => lookupType root ("." ++ typeName)
  end.

(** [anyValue.value ? Buffer.from(anyValue.value).toString('base64') : null] *)
Definition base64OrNull (v : JsValue) : Outcome JsValue :=
  if Js.truthy v then
    match v with
    | JBytes b => Returns (JStr (Js.base64 b))
    | _ => Unmodelled
    end
  else Returns JNull.

Definition fallbackAny (typeUrl : string) (v : JsValue) : Outcome JsValue :=
  let* b := base64OrNull v in
  Returns (JObj [("@type", JStr typeUrl); ("value", b)]).

(** [decodeAnyValue].  A [type_url] that is truthy and not a string is
    outside the declared parameter type: a number, a boolean or a plain
    object has no [includes] and the call throws a [TypeError]; an array
    or a buffer has one, and what follows is not modelled.  Neither is
    [Buffer.from] on a payload that is not a buffer. *)
Definition decodeAnyValue (anyValue : Props) (root : Root) : Outcome JsValue :=
  let type_url := Js.get "type_url" anyValue in
  if negb (Js.truthy type_url) then Returns (JObj anyValue)
  else
    match type_url with
    | JStr typeUrl =>
        let typeName := typeNameOf typeUrl in
        let payload := Js.get "value" anyValue in
        match resolveType root typeName with
        | None => fallbackAny typeUrl payload
        | Some messageType =>
            if Js.truthy payload then
              match payload with
              | JBytes valueBuffer =>
                  match (let* decoded := decode messageType valueBuffer in
                         toObject messageType decoded decodeOptions) with
                  | Returns jsonObj =>
                      Returns (JObj (Js.spread [("@type", JStr typeUrl)] jsonObj))
                  | Throws _ => fallbackAny typeUrl payload
                  | Unmodelled => Unmodelled
                  end
              | _ => Unmodelled
              end
            else fallbackAny typeUrl payload
        end
    | JBool _ | JNum _ | JObj _ =>
        Throws (TypeError "typeUrl.includes is not a function")
    | _ => Unmodelled
    end.

(** [encodeAnyValue].  Every error raised inside the [try] block is
    logged and thrown again. *)
Definition encodeAnyValue (jsonValue : Props) (root : Root) : Outcome JsValue :=
  let tag := Js.get "@type" jsonValue in
  if negb (Js.truthy tag) then Returns (JObj jsonValue)
  else
    match tag with
    | JStr typeUrl =>
        let typeName := typeNameOf typeUrl in
        match resolveType root typeName with
        | None => Throws (Error ("Type not found: " ++ typeName))
        | Some messageType =>
            let messageFields := Js.omit "@type" jsonValue in
            let build :=
              let* message := create messageType messageFields in
              let* encoded := encode messageType message in
              Returns (JObj [("type_url", JStr typeUrl); ("value", JBytes encoded)]) in
            let* errMsg := verify messageType messageFields in
            match errMsg with
            | Some msg =>
                if JsString.truthy msg
                then Throws (Error ("Invalid message structure: " ++ msg))
                else build
            | None => build
            end
        end
    | JBool _ | JNum _ | JObj _ =>
        Throws (TypeError "typeUrl.includes is not a function")
    | _ => Unmodelled
    end.

(** [processResponseForAny].  A buffer is an object that is not an
    array: the walk rebuilds it from its entries, index by index. *)
Fixpoint processResponseForAny (obj : JsValue) (root : Root) {struct obj}
    : Outcome JsValue :=
  match obj with
  | JNull | JUndefined => Returns obj
  | JArr items =>
      let* mapped :=
        (fix each (l : list JsValue) : Outcome (list JsValue) :=
           match l with
           | [] => Returns []
           | item :: rest =>
               let* y := processResponseForAny item root in
               let* ys := each rest in
               Returns (y :: ys)
           end) items in
      Returns (JArr mapped)
  | JObj record =>
      if Js.has "type_url" record && Js.has "value" record
      then decodeAnyValue record root
      else
        let* result :=
          (fix each (l : Props) (result : Props) : Outcome Props :=
             match l with
             | [] => Returns result
             | (k, v) :: rest =>
                 let* v' := processResponseForAny v root in
                 each rest (Js.assign k v' result)
             end) record [] in
        Returns (JObj result)
  | JBytes b => Returns (JObj (fold_left (fun o kv => Js.assign (fst kv) (snd kv) o)
                                         (Js.bufferEntries b) []))
  | JBool _ | JNum _ | JStr _ => Returns obj
  end.

Fixpoint processRequestForAny (obj : JsValue) (root : Root) {struct obj}
    : Outcome JsValue :=
  match obj with
  | JNull | JUndefined => Returns obj
  | JArr items =>
      let* mapped :=
        (fix each (l : list JsValue) : Outcome (list JsValue) :=
           match l with
           | [] => Returns []
           | item :: rest =>
               let* y := processRequestForAny item root in
               let* ys := each rest in
               Returns (y :: ys)
           end) items in
      Returns (JArr mapped)
  | JObj record =>
      if Js.has "@type" record
      then encodeAnyValue record root
      else
        let* result :=
          (fix each (l : Props) (result : Props) : Outcome Props :=
             match l with
             | [] => Returns result
             | (k, v) :: rest =>
                 let* v' := processRequestForAny v root in
                 each rest (Js.assign k v' result)
             end) record [] in
        Returns (JObj result)
  | JBytes b => Returns (JObj (fold_left (fun o kv => Js.assign (fst kv) (snd kv) o)
                                         (Js.bufferEntries b) []))
  | JBool _ | JNum _ | JStr _ => Returns obj
  end.

End WithRuntime.

End GrpcCodec.

(** ** [helpers/protoParser.ts]: the schema resolver *)

Module SchemaResolver.

Definition dq : string := String (ascii_of_nat 34) "".

Definition lf : string := String (ascii_of_nat 10) "".

(** The text of a template literal, line by line. *)
Definition lines (l : list string) : string := String.concat lf l.

Definition proto3Header : list string :=
  [""; ("syntax = " ++ dq ++ "proto3" ++ dq ++ ";")%string;
   "package google.protobuf;"; ""].

Definition GOOGLE_PROTOBUF_ANY : string :=
  lines (proto3Header ++
    ["message Any {";
     "  string type_url = 1;";
     "  bytes value = 2;";
     "}"; ""]).

Definition GOOGLE_PROTOBUF_STRUCT : string :=
  lines (proto3Header ++
    ["message Struct {";
     "  map<string, Value> fields = 1;";
     "}";
     "";
     "message Value {";
     "  oneof kind {";
     "    NullValue null_value = 1;";
     "    double number_value = 2;";
     "    string string_value = 3;";
     "    bool bool_value = 4;";
     "    Struct struct_value = 5;";
     "    ListValue list_value = 6;";
     "  }";
     "}";
     "";
     "enum NullValue {";
     "  NULL_VALUE = 0;";
     "}";
     "";
     "message ListValue {";
     "  repeated Value values = 1;";
     "}"; ""]).

Definition GOOGLE_PROTOBUF_WRAPPERS : string :=
  lines (proto3Header ++
    ["message DoubleValue { double value = 1; }";
     "message FloatValue { float value = 1; }";
     "message Int64Value { int64 value = 1; }";
     "message UInt64Value { uint64 value = 1; }";
     "message Int32Value { int32 value = 1; }";
     "message UInt32Value { uint32 value = 1; }";
     "message BoolValue { bool value = 1; }";
     "message StringValue { string value = 1; }";
     "message BytesValue { bytes value = 1; }"; ""]).

Definition GOOGLE_PROTOBUF_TIMESTAMP : string :=
  lines (proto3Header ++
    ["message Timestamp {";
     "  int64 seconds = 1;";
     "  int32 nanos = 2;";
     "}"; ""]).

Definition GOOGLE_PROTOBUF_DURATION : string :=
  lines (proto3Header ++
    ["message Duration {";
     "  int64 seconds = 1;";
     "  int32 nanos = 2;";
     "}"; ""]).

Definition GOOGLE_PROTOBUF_EMPTY : string :=
  lines (proto3Header ++ ["message Empty {}"; ""]).

Definition getWellKnownTypes : list ProtoFile :=
  [ mkProtoFile "google/protobuf/any.proto" GOOGLE_PROTOBUF_ANY;
    mkProtoFile "google/protobuf/struct.proto" GOOGLE_PROTOBUF_STRUCT;
    mkProtoFile "google/protobuf/wrappers.proto" GOOGLE_PROTOBUF_WRAPPERS;
    mkProtoFile "google/protobuf/timestamp.proto" GOOGLE_PROTOBUF_TIMESTAMP;
    mkProtoFile "google/protobuf/duration.proto" GOOGLE_PROTOBUF_DURATION;
    mkProtoFile "google/protobuf/empty.proto" GOOGLE_PROTOBUF_EMPTY ].

(** The message types the six well-known sources declare. *)
Definition wellKnownTypeNames : list string :=
  map (fun n => ("google.protobuf." ++ n)%string)
    ["Any"; "Struct"; "Value"; "ListValue";
     "DoubleValue"; "FloatValue"; "Int64Value"; "UInt64Value";
     "Int32Value"; "UInt32Value"; "BoolValue"; "StringValue"; "BytesValue";
     "Timestamp"; "Duration"; "Empty"].

(** A [Map<string, string>] in insertion order. *)
Definition FileMap := list (string * string).

Definition mapHas (k : string) (m : FileMap) : bool :=
  existsb (fun kv => String.eqb (fst kv) k) m.

Fixpoint mapSet (k v : string) (m : FileMap) : FileMap :=
  match m with
  | [] => [(k, v)]
  | (k', v') :: r =>
      if String.eqb k' k then (k', v) :: r else (k', v') :: mapSet k v r
  end.

(** The import map built from all files; nothing reads it afterwards. *)
Definition buildFileMap (allFiles : list ProtoFile) : FileMap :=
  fold_left
    (fun fileMap file =>
       let fileMap := mapSet (filename file) (content file) fileMap in
       let popped := JsString.splitPop "/" (filename file) in
       let basename := if JsString.truthy popped then popped else filename file in
       if negb (mapHas basename fileMap)
       then mapSet basename (content file) fileMap
       else fileMap)
    allFiles [].

Section WithRuntime.

Context {pb : Protobuf}.

(** The loop over the well-known files: every error is ignored. *)
Definition parseWellKnown (wellKnownTypes : list ProtoFile) (root : Root) : Root :=
  fold_left (fun r file => fst (parse (content file) r)) wellKnownTypes root.

(** The loop over the user files: the first error is thrown, with the
    file name. *)
Fixpoint parseUserFiles (protoFiles : list ProtoFile) (root : Root) : Outcome Root :=
  match protoFiles with
  | [] => Returns root
  | file :: rest =>
      match parse (content file) root with
      | (root', None) => parseUserFiles rest root'
      | (_, Some error) =>
          Throws (Error ("Failed to parse proto file " ++ dq ++ filename file ++ dq
                         ++ ": " ++ errorMessage error))
      end
  end.

Definition parseProtoFiles (protoFiles : list ProtoFile) : Outcome Root :=
  let root := newRoot in
  let wellKnownTypes := getWellKnownTypes in
  let allFiles := wellKnownTypes ++ protoFiles in
  let fileMap := buildFileMap allFiles in
  let root := setResolvePath (fun _origin target => target) root in
  let root := parseWellKnown wellKnownTypes root in
  let* root := parseUserFiles protoFiles root in
  match resolveAll root with
  | (root', None) => Returns root'
  | (_, Some error) => Throws error
  end.

End WithRuntime.

End SchemaResolver.

(** ** [helpers/grpcClient.ts]: the client *)

Record GrpcConfig : Type := mkGrpcConfig {
    host : string;
    useTls : bool;
    metadata : list MetadataEntry;
    protoFiles : list ProtoFile
  }.

Record GrpcCallOptions : Type := mkGrpcCallOptions {
    timeout : option Z
  }.

(** [grpc.CallOptions] *)
Record CallOptions : Type := mkCallOptions {
    deadline : option Z
  }.

(** What a [grpc.ClientReadableStream] emits. *)
Inductive StreamEvent : Type :=
  | EvData (data : JsValue)
  | EvError (code : Z) (message : string)
  | EvEnd.

(** A transport client: its callable members.  Calling a server-streaming
    member returns a stream, given here by the events it will emit. *)
Record GrpcClient : Type := mkGrpcClient {
    clientMethod : string -> option (JsValue -> Metadata.t -> CallOptions -> list StreamEvent)
  }.

(** The object [grpc.loadPackageDefinition] returns: name spaces, service
    client constructors (functions carrying a [service] member) and
    message or enum type definitions (plain objects). *)
Inductive GrpcObject (Ctor : Type) : Type :=
  | GNamespace (members : list (string * GrpcObject Ctor))
  | GServiceClient (ctor : Ctor)
  | GTypeDefinition.

Arguments GNamespace {Ctor} members.
Arguments GServiceClient {Ctor} ctor.
Arguments GTypeDefinition {Ctor}.

Record LoaderOptions : Type := mkLoaderOptions {
    keepCase : bool;
    longs_String : bool;
    enums_String : bool;
    loader_defaults : bool;
    oneofs : bool;
    includeDirs : list string
  }.

(** The world outside: the file system, [@grpc/proto-loader] and
    [@grpc/grpc-js].  Every call may throw. *)
Class Host : Type := {
    World : Type;
    PackageDefinition : Type;
    ServiceClientConstructor : Type;
    ChannelCredentials : Type;
    tmpdir : string;
    pathJoin : string -> string -> string;
    pathDirname : string -> string;
    pathExists : World -> string -> bool;
    mkdtempSync : string -> World -> Outcome string * World;
    mkdirSync : string -> World -> Outcome unit * World;
    writeFileSync : string -> string -> World -> Outcome unit * World;
    rmSync : string -> World -> Outcome unit * World;
    load : list string -> LoaderOptions -> World -> Outcome PackageDefinition * World;
    loadPackageDefinition : PackageDefinition -> Outcome (GrpcObject ServiceClientConstructor);
    createSsl : Outcome ChannelCredentials;
    createInsecure : Outcome ChannelCredentials;
    construct : ServiceClientConstructor -> string -> ChannelCredentials -> Outcome GrpcClient
  }.

Module GrpcClientModule.

Import SchemaResolver GrpcCodec.

(** The copies of the well-known sources written for the loader. *)
Definition WELL_KNOWN_PROTOS : list ProtoFile :=
  let header := [("syntax = " ++ dq ++ "proto3" ++ dq ++ ";")%string;
                 "package google.protobuf;"] in
  [ mkProtoFile "google/protobuf/any.proto"
      (lines (header ++
        [("option java_package = " ++ dq ++ "com.google.protobuf" ++ dq ++ ";")%string;
         "message Any {";
         "  string type_url = 1;";
         "  bytes value = 2;";
         "}"]));
    mkProtoFile "google/protobuf/struct.proto"
      (lines (header ++
        ["message Struct { map<string, Value> fields = 1; }";
         "message Value {";
         "  oneof kind {";
         "    NullValue null_value = 1;";
         "    double number_value = 2;";
         "    string string_value = 3;";
         "    bool bool_value = 4;";
         "    Struct struct_value = 5;";
         "    ListValue list_value = 6;";
         "  }";
         "}";
         "enum NullValue { NULL_VALUE = 0; }";
         "message ListValue { repeated Value values = 1; }"]));
    mkProtoFile "google/protobuf/timestamp.proto"
      (lines (header ++ ["message Timestamp { int64 seconds = 1; int32 nanos = 2; }"]));
    mkProtoFile "google/protobuf/duration.proto"
      (lines (header ++ ["message Duration { int64 seconds = 1; int32 nanos = 2; }"]));
    mkProtoFile "google/protobuf/empty.proto"
      (lines (header ++ ["message Empty {}"]));
    mkProtoFile "google/protobuf/wrappers.proto"
      (lines (header ++
        ["message DoubleValue { double value = 1; }";
         "message FloatValue { float value = 1; }";
         "message Int64Value { int64 value = 1; }";
         "message UInt64Value { uint64 value = 1; }";
         "message Int32Value { int32 value = 1; }";
         "message UInt32Value { uint32 value = 1; }";
         "message BoolValue { bool value = 1; }";
         "message StringValue { string value = 1; }";
         "message BytesValue { bytes value = 1; }"])) ].

(** [s.split(sep)] for a one-character separator *)
Fixpoint splitChars (sep : ascii) (l : list ascii) : list (list ascii) :=
  match l with
  | [] => [[]]
  | c :: r =>
      if Ascii.eqb c sep then [] :: splitChars sep r
      else match splitChars sep r with
           | h :: t => (c :: h) :: t
           | [] => [[c]]
           end
  end.

Definition split (sep : ascii) (s : string) : list string :=
  map JsString.of_chars (splitChars sep (JsString.chars s)).

Fixpoint lookupMember {C : Type} (part : string)
    (members : list (string * GrpcObject C)) : option (GrpcObject C) :=
  match members with
  | [] => None
  | (k, v) :: r => if String.eqb k part then Some v else lookupMember part r
  end.

(** The walk along the dotted name.  Only a name space has members that
    lead to a service constructor: a key found on a type definition, or
    inherited from [Object.prototype], never does, and ends in [null]
    like a missing key. *)
Fixpoint walkParts {C : Type} (parts : list string) (current : GrpcObject C)
    : option (GrpcObject C) :=
  match parts with
  | [] => Some current
  | part :: rest =>
      match current with
      | GNamespace members =>
          match lookupMember part members with
          | Some next => walkParts rest next
          | None => None
          end
      | _ => None
      end
  end.

Definition findServiceConstructor {C : Type} (grpcObject : GrpcObject C)
    (serviceName : string) : option C :=
  match walkParts (split "." serviceName) grpcObject with
  | Some (GServiceClient ctor) => Some ctor
  | _ => None
  end.

Section WithHost.

Context {pb : Protobuf} {hostEnv : Host} {lib : GrpcMetadata}.

Record GrpcClientWrapper : Type := mkWrapper {
    client : GrpcClient;
    root : Root;
    serviceName : string;
    tempDir : string
  }.

(** Computations in the world, which may throw. *)
Definition IO (A : Type) : Type := World -> Outcome A * World.

Definition ret {A : Type} (a : A) : IO A := fun w => (Returns a, w).

Definition throw {A : Type} (e : JsError) : IO A := fun w => (Throws e, w).

Definition lift {A : Type} (o : Outcome A) : IO A := fun w => (o, w).

Definition seqIO {A B : Type} (m : IO A) (f : A -> IO B) : IO B :=
  fun w =>
    match m w with
    | (Returns a, w') => f a w'
    | (Throws e, w') => (Throws e, w')
    | (Unmodelled, w') => (Unmodelled, w')
    end.

(** [try { m } catch (error) { handler }] *)
Definition tryCatch {A : Type} (m : IO A) (handler : JsError -> IO A) : IO A :=
  fun w =>
    match m w with
    | (Throws e, w') => handler e w'
    | r => r
    end.

Fixpoint forEach {A : Type} (l : list A) (f : A -> IO unit) : IO unit :=
  match l with
  | [] => ret tt
  | x :: r => seqIO (f x) (fun _ => forEach r f)
  end.

Definition cleanupTempDir (dir : string) : IO unit :=
  tryCatch (rmSync dir) (fun _ => ret tt).

Definition writeProto (dir : string) (protoFile : ProtoFile) : IO unit :=
  let filePath := pathJoin dir (filename protoFile) in
  seqIO (mkdirSync (pathDirname filePath)) (fun _ =>
  writeFileSync filePath (content protoFile)).

Definition serviceNotFound (name : string) : JsError :=
  Error ("Service " ++ dq ++ name ++ dq ++ " not found in proto definitions").

(** The body of the [try] block of [createGrpcClient]. *)
Definition construction (config : GrpcConfig) (name : string) (dir : string)
    : IO GrpcClientWrapper :=
  seqIO (forEach WELL_KNOWN_PROTOS (writeProto dir)) (fun _ =>
  seqIO (forEach (protoFiles config) (writeProto dir)) (fun _ =>
  let allProtoPaths := map (fun f => pathJoin dir (filename f)) (protoFiles config) in
  seqIO (load allProtoPaths (mkLoaderOptions false true true true true [dir]))
    (fun packageDefinition =>
  seqIO (lift (loadPackageDefinition packageDefinition)) (fun grpcObject =>
  match findServiceConstructor grpcObject name with
  | None => throw (serviceNotFound name)
  | Some ServiceConstructor =>
      seqIO (lift (if useTls config then createSsl else createInsecure))
        (fun credentials =>
      seqIO (lift (construct ServiceConstructor (host config) credentials))
        (fun newClient =>
      seqIO (lift (parseProtoFiles (protoFiles config))) (fun parsedRoot =>
      ret (mkWrapper newClient parsedRoot name dir))))
  end)))).

Definition stagingPrefix : string := pathJoin tmpdir "n8n-grpc-".

Definition createGrpcClient (config : GrpcConfig) (name : string)
    : IO GrpcClientWrapper :=
  seqIO (mkdtempSync stagingPrefix) (fun dir =>
  tryCatch (construction config name dir)
    (fun error => seqIO (cleanupTempDir dir) (fun _ => throw error))).

(** *** Server streaming *)

(** The state the listeners share: the [results] array, and how the
    promise was settled.  [resolve(results)] hands over the array
    itself, so a settled promise still sees later pushes. *)
Inductive Settlement : Type :=
  | ResolvedWithResults
  | RejectedWith (e : JsError).

Record StreamState : Type := mkStreamState {
    results : list JsValue;
    settled : option Settlement
  }.

(** [resolve] and [reject] have no effect on a settled promise. *)
Definition settle (s : Settlement) (st : StreamState) : StreamState :=
  match settled st with
  | Some _ => st
  | None => mkStreamState (results st) (Some s)
  end.

Definition streamError (code : Z) (message : string) : JsError :=
  Error ("gRPC stream error (" ++ Js.intToString code ++ "): " ++ message).

(** One event, handed to its listener. *)
Definition listener (rt : Root) (st : StreamState) (ev : StreamEvent)
    : Outcome StreamState :=
  match ev with
  | EvData data =>
      let* processedData := processResponseForAny data rt in
      Returns (mkStreamState (results st ++ [processedData]) (settled st))
  | EvError code message => Returns (settle (RejectedWith (streamError code message)) st)
  | EvEnd => Returns (settle ResolvedWithResults st)
  end.

Fixpoint deliver (rt : Root) (events : list StreamEvent) (st : StreamState)
    : Outcome StreamState :=
  match events with
  | [] => Returns st
  | ev :: rest =>
      let* st' := listener rt st ev in
      deliver rt rest st'
  end.

(** What the caller of an asynchronous call observes. *)
Inductive CallOutcome : Type :=
  | Resolved (rows : list JsValue)
  | Rejected (e : JsError)
  | Pending
  | ListenerThrew (e : JsError)     (* an exception no code here catches *)
  | CallUnmodelled.

Definition methodNotFound (methodName service : string) : JsError :=
  Error ("Method " ++ dq ++ methodName ++ dq ++ " not found on service "
         ++ dq ++ service ++ dq).

(** [callOptions.deadline = new Date(Date.now() + options.timeout)], when
    a timeout is set and is not zero. *)
Definition callOptionsFor (options : GrpcCallOptions) (now : Z) : CallOptions :=
  match timeout options with
  | Some t => if (t =? 0)%Z then mkCallOptions None
              else mkCallOptions (Some (now + t)%Z)
  | None => mkCallOptions None
  end.

(** [invokeServerStreaming].  What is thrown before the promise is
    made, by [createMetadata] or by the request walk, rejects the
    promise the [async] method returns. *)
Definition invokeServerStreaming (this : GrpcClientWrapper) (methodName : string)
    (request : JsValue) (entries : list MetadataEntry)
    (options : GrpcCallOptions) (now : Z) : CallOutcome :=
  match createMetadata entries with
  | Throws e => Rejected e
  | Unmodelled => CallUnmodelled
  | Returns grpcMetadata =>
      let callOptions := callOptionsFor options now in
      match processRequestForAny request (root this) with
      | Throws e => Rejected e
      | Unmodelled => CallUnmodelled
      | Returns processedRequest =>
          match clientMethod (client this) methodName with
          | None => Rejected (methodNotFound methodName (serviceName this))
          | Some method =>
              let call := method processedRequest grpcMetadata callOptions in
              match deliver (root this) call (mkStreamState [] None) with
              | Returns st =>
                  match settled st with
                  | Some ResolvedWithResults => Resolved (results st)
                  | Some (RejectedWith e) => Rejected e
                  | None => Pending
                  end
              | Throws e => ListenerThrew e
              | Unmodelled => CallUnmodelled
              end
          end
      end
  end.

End WithHost.

End GrpcClientModule.

(** ** A reference runtime

    An instance of the [Protobuf] interface, small enough to compute
    with: proto3 sources made of [package], [message], [enum] and
    [service] declarations; messages whose fields are all [int32],
    [bool] or [string] are verified, encoded to the protobuf wire format
    and decoded as the code protobufjs generates does.  Other messages
    can be declared and looked up; their encoding is left unmodelled. *)

Module ReferenceRuntime.

Inductive FieldType : Type :=
  | FInt32
  | FBool
  | FString
  | FOther (typeName : string).

Record Field : Type := mkField {
    fieldName : string;
    fieldId : N;
    fieldType : FieldType
  }.

Inductive Kind : Type := KMessage | KEnum | KService.

Record Decl : Type := mkDecl {
    kind : Kind;
    package : string;
    fullName : string;
    fields : list Field;
    flat : bool            (* no nested block: [fields] is the whole field set *)
  }.

Definition RefRoot := list Decl.

(** *** Reading a source *)

Definition isPunct (c : ascii) : bool :=
  existsb (Ascii.eqb c) (JsString.chars "{}=;<>,()[]").

Definition flush (cur : list ascii) (acc : list string) : list string :=
  match cur with
  | [] => acc
  | _ => JsString.of_chars (rev cur) :: acc
  end.

(** Tokens, last first.  [inStr] is set inside a string literal. *)
Fixpoint tokenize (l : list ascii) (cur : list ascii) (inStr : bool)
    (acc : list string) : list string :=
  match l with
  | [] => flush cur acc
  | c :: r =>
      if inStr then
        if Ascii.eqb c (ascii_of_nat 34)
        then tokenize r [] false (flush (c :: cur) acc)
        else tokenize r (c :: cur) true acc
      else if Ascii.eqb c (ascii_of_nat 34) then tokenize r [c] true (flush cur acc)
      else if JsString.isWhiteSpace c then tokenize r [] false (flush cur acc)
      else if isPunct c then tokenize r [] false (String c "" :: flush cur acc)
      else tokenize r (c :: cur) false acc
  end.

Definition tokens (source : string) : list string :=
  rev (tokenize (JsString.chars source) [] false []).

Inductive Mode : Type :=
  | MTop
  | MSkip
  | MPackage
  | MName (k : Kind)
  | MOpen (k : Kind) (name : string)
  | MBody (k : Kind) (name : string) (depth : nat) (stmt : list string)
          (fs : list Field) (isFlat : bool)
  | MError (message : string).

Record PState : Type := mkPState {
    pkg : string;
    decls : RefRoot;
    mode : Mode
  }.

Definition fieldTypeOf (ty : string) : FieldType :=
  if String.eqb ty "int32" then FInt32
  else if String.eqb ty "bool" then FBool
  else if String.eqb ty "string" then FString
  else FOther ty.

Definition parseId (s : string) : N :=
  match NilEmpty.uint_of_string s with
  | Some u => N.of_uint u
  | None => 0%N
  end.

(** A statement of a message body, as a field when it is one. *)
Definition fieldOf (stmt : list string) : option Field :=
  match stmt with
  | [ty; name; "="; id] => Some (mkField name (parseId id) (fieldTypeOf ty))
  | ["repeated"; ty; name; "="; id] =>
      Some (mkField name (parseId id) (FOther ("repeated " ++ ty)))
  | ["optional"; ty; name; "="; id] => Some (mkField name (parseId id) (fieldTypeOf ty))
  | ["map"; "<"; _; ","; ty; ">"; name; "="; id] =>
      Some (mkField name (parseId id) (FOther ("map " ++ ty)))
  | _ => None
  end.

Definition qualify (p name : string) : string :=
  if JsString.truthy p then (p ++ "." ++ name)%string else name.

Definition declared (name : string) (r : RefRoot) : bool :=
  existsb (fun d => String.eqb (fullName d) name) r.

Definition step (st : PState) (tok : string) : PState :=
  match mode st with
  | MError _ => st
  | MTop =>
      if String.eqb tok "syntax" || String.eqb tok "import" || String.eqb tok "option"
      then mkPState (pkg st) (decls st) MSkip
      else if String.eqb tok "package" then mkPState (pkg st) (decls st) MPackage
      else if String.eqb tok "message" then mkPState (pkg st) (decls st) (MName KMessage)
      else if String.eqb tok "enum" then mkPState (pkg st) (decls st) (MName KEnum)
      else if String.eqb tok "service" then mkPState (pkg st) (decls st) (MName KService)
      else if String.eqb tok ";" then st
      else mkPState (pkg st) (decls st) (MError ("illegal token '" ++ tok ++ "'"))
  | MSkip =>
      if String.eqb tok ";" then mkPState (pkg st) (decls st) MTop else st
  | MPackage => mkPState tok (decls st) MSkip
  | MName k => mkPState (pkg st) (decls st) (MOpen k tok)
  | MOpen k name =>
      if String.eqb tok "{" then mkPState (pkg st) (decls st) (MBody k name 1 [] [] true)
      else mkPState (pkg st) (decls st) (MError ("illegal token '" ++ tok ++ "'"))
  | MBody k name depth stmt fs isFlat =>
      if String.eqb tok "{"
      then mkPState (pkg st) (decls st) (MBody k name (S depth) [] fs false)
      else if String.eqb tok "}" then
        match depth with
        | 1 =>
            let full := qualify (pkg st) name in
            if declared full (decls st)
            then mkPState (pkg st) (decls st)
                   (MError ("duplicate name '" ++ name ++ "' in Namespace ." ++ pkg st))
            else mkPState (pkg st)
                   (decls st ++ [mkDecl k (pkg st) full fs isFlat]) MTop
        | _ => mkPState (pkg st) (decls st) (MBody k name (pred depth) [] fs isFlat)
        end
      else if String.eqb tok ";" then
        match depth, fieldOf stmt with
        | 1, Some f => mkPState (pkg st) (decls st) (MBody k name depth [] (fs ++ [f]) isFlat)
        | _, _ => mkPState (pkg st) (decls st) (MBody k name depth [] fs isFlat)
        end
      else mkPState (pkg st) (decls st) (MBody k name depth (stmt ++ [tok]) fs isFlat)
  end.

Definition refParse (source : string) (r : RefRoot) : RefRoot * option JsError :=
  let final := fold_left step (tokens source) (mkPState "" r MTop) in
  match mode final with
  | MTop => (decls final, None)
  | MError m => (decls final, Some (Error m))
  | _ => (decls final, Some (Error "illegal token 'null'"))
  end.

Definition stripDot (s : string) : string :=
  match s with
  | String "." r => r
  | _ => s
  end.

Fixpoint findDecl (name : string) (r : RefRoot) : option Decl :=
  match r with
  | [] => None
  | d :: rest => if String.eqb (fullName d) name then Some d else findDecl name rest
  end.

Definition refLookupType (r : RefRoot) (path : string) : option Decl :=
  match findDecl (stripDot path) r with
  | Some d => match kind d with KMessage => Some d | _ => None end
  | None => None
  end.

Definition scalarNames : list string :=
  ["double"; "float"; "int32"; "int64"; "uint32"; "uint64"; "sint32"; "sint64";
   "fixed32"; "fixed64"; "sfixed32"; "sfixed64"; "bool"; "string"; "bytes"].

Definition elementType (ty : string) : string :=
  JsString.splitPop " " ty.

Definition typeResolves (r : RefRoot) (p : string) (ty : FieldType) : bool :=
  match ty with
  | FOther name =>
      let n := stripDot (elementType name) in
      existsb (String.eqb n) scalarNames || declared n r || declared (qualify p n) r
  | _ => true
  end.

Definition unresolved (r : RefRoot) : list string :=
  flat_map (fun d =>
    flat_map (fun f =>
      if typeResolves r (package d) (fieldType f) then []
      else match fieldType f with
           | FOther name => [elementType name]
           | _ => []
           end) (fields d)) r.

Definition refResolveAll (r : RefRoot) : RefRoot * option JsError :=
  match unresolved r with
  | [] => (r, None)
  | name :: _ => (r, Some (Error ("no such type: " ++ name)))
  end.

(** *** The wire format *)

Definition toByte (n : N) : byte :=
  match Byte.of_N (n mod 256) with
  | Some b => b
  | None => x00
  end.

(** [Writer.uint32] and the 64-bit writer: seven bits a byte, low first. *)
Fixpoint varint (fuel : nat) (n : N) : list byte :=
  match fuel with
  | 0 => []
  | S f =>
      if (n <? 128)%N then [toByte n]
      else toByte (n mod 128 + 128) :: varint f (n / 128)
  end.

Definition writeUint32 (v : Z) : list byte :=
  varint 5 (Z.to_N (v mod 2 ^ 32)).

(** [Writer.int32]: a negative value is written as a 64-bit varint. *)
Definition writeInt32 (v : Z) : list byte :=
  if (v <? 0)%Z then varint 10 (Z.to_N (v mod 2 ^ 64)) else writeUint32 v.

Definition outOfRange : JsError := Error "index out of range".

(** [Reader.uint32]: five bytes at most carry the value; when the fifth
    has its high bit set, five more are skipped. *)
Fixpoint readUint32From (k : nat) (shift acc : N) (buf : list byte)
    : Outcome (N * list byte) :=
  match k with
  | 0 => if 5 <=? length buf then Returns (acc, skipn 5 buf) else Throws outOfRange
  | S k' =>
      match buf with
      | [] => Throws outOfRange
      | b :: r =>
          let x := Byte.to_N b in
          let mask := if k' =? 0 then 15%N else 127%N in
          let acc' := N.lor acc (N.shiftl (N.land x mask) shift) in
          if (x <? 128)%N then Returns (acc', r)
          else readUint32From k' (shift + 7) acc' r
      end
  end.

Definition readUint32 (buf : list byte) : Outcome (N * list byte) :=
  readUint32From 5 0 0 buf.

(** [n | 0] *)
Definition toInt32 (n : N) : Z :=
  if (n <? 2 ^ 31)%N then Z.of_N n else (Z.of_N n - 2 ^ 32)%Z.

Definition isAscii (c : ascii) : bool := nat_of_ascii c <? 128.

Fixpoint skipVarint (buf : list byte) : Outcome (list byte) :=
  match buf with
  | [] => Throws outOfRange
  | b :: r => if (Byte.to_N b <? 128)%N then Returns r else skipVarint r
  end.

Definition skipBytes (n : nat) (buf : list byte) : Outcome (list byte) :=
  if n <=? length buf then Returns (skipn n buf) else Throws outOfRange.

(** [Reader.skipType] *)
Definition skipType (wireType : N) (buf : list byte) : Outcome (list byte) :=
  match wireType with
  | 0%N => skipVarint buf
  | 1%N => skipBytes 8 buf
  | 2%N => let* p := readUint32 buf in skipBytes (N.to_nat (fst p)) (snd p)
  | 3%N => Unmodelled
  | 5%N => skipBytes 4 buf
  | _ => Throws (Error "invalid wire type")
  end.

Fixpoint findField (id : N) (fs : list Field) : option Field :=
  match fs with
  | [] => None
  | f :: r => if (fieldId f =? id)%N then Some f else findField id r
  end.

(** The decoding loop: a tag, then the value read as the field's
    declared type; an unknown field is skipped by wire type. *)
Fixpoint readMessage (fuel : nat) (fs : list Field) (buf : list byte) (m : Props)
    : Outcome Props :=
  match buf with
  | [] => Returns m
  | _ :: _ =>
      match fuel with
      | 0 => Unmodelled
      | S fuel' =>
          let* t := readUint32 buf in
          let id := N.shiftr (fst t) 3 in
          let wireType := N.land (fst t) 7 in
          match findField id fs with
          | None =>
              let* rest := skipType wireType (snd t) in
              readMessage fuel' fs rest m
          | Some f =>
              match fieldType f with
              | FInt32 =>
                  let* v := readUint32 (snd t) in
                  readMessage fuel' fs (snd v)
                    (Js.set (fieldName f) (JNum (toInt32 (fst v))) m)
              | FBool =>
                  let* v := readUint32 (snd t) in
                  readMessage fuel' fs (snd v)
                    (Js.set (fieldName f) (JBool (negb (fst v =? 0)%N)) m)
              | FString =>
                  let* len := readUint32 (snd t) in
                  let n := N.to_nat (fst len) in
                  if n <=? length (snd len) then
                    let text := map ascii_of_byte (firstn n (snd len)) in
                    if forallb isAscii text
                    then readMessage fuel' fs (skipn n (snd len))
                           (Js.set (fieldName f) (JStr (JsString.of_chars text)) m)
                    else Unmodelled
                  else Throws outOfRange
              | FOther _ => Unmodelled
              end
          end
      end
  end.

(** *** Messages *)

Definition supported (t : Decl) : bool :=
  flat t && forallb (fun f => match fieldType f with FOther _ => false | _ => true end)
                    (fields t).

Definition isNullish (v : JsValue) : bool :=
  match v with
  | JUndefined | JNull => true
  | _ => false
  end.

Fixpoint insertById (f : Field) (l : list Field) : list Field :=
  match l with
  | [] => [f]
  | g :: r => if (fieldId f <? fieldId g)%N then f :: l else g :: insertById f r
  end.

(** The fields in the order of their numbers. *)
Definition sortedFields (t : Decl) : list Field :=
  fold_left (fun acc f => insertById f acc) (fields t) [].

Fixpoint verifyFields (fs : list Field) (m : Props) : option string :=
  match fs with
  | [] => None
  | f :: r =>
      let v := Js.get (fieldName f) m in
      if isNullish v then verifyFields r m
      else
        match fieldType f, v with
        | FInt32, JNum _ => verifyFields r m
        | FInt32, _ => Some (fieldName f ++ ": integer expected")%string
        | FBool, JBool _ => verifyFields r m
        | FBool, _ => Some (fieldName f ++ ": boolean expected")%string
        | FString, JStr _ => verifyFields r m
        | FString, _ => Some (fieldName f ++ ": string expected")%string
        | FOther _, _ => verifyFields r m
        end
  end.

Definition refVerify (t : Decl) (m : Props) : Outcome (option string) :=
  if supported t then Returns (verifyFields (fields t) m) else Unmodelled.

(** [new Message(properties)]: the properties that are not nullish. *)
Definition refCreate (t : Decl) (properties : Props) : Outcome Props :=
  Returns (filter (fun kv => negb (isNullish (snd kv))) properties).

Definition tag (f : Field) (wireType : N) : list byte :=
  varint 5 (N.lor (N.shiftl (fieldId f) 3) wireType mod 2 ^ 32).

Fixpoint writeFields (fs : list Field) (m : Props) : Outcome (list byte) :=
  match fs with
  | [] => Returns []
  | f :: r =>
      let v := Js.get (fieldName f) m in
      let* here :=
        if isNullish v then Returns []
        else
          match fieldType f, v with
          | FInt32, JNum n => Returns (tag f 0 ++ writeInt32 n)
          | FBool, JBool b => Returns (tag f 0 ++ [if b then x01 else x00])
          | FString, JStr s =>
              let text := JsString.chars s in
              if forallb isAscii text
              then Returns (tag f 2 ++ writeUint32 (Z.of_nat (length text))
                            ++ map byte_of_ascii text)
              else Unmodelled
          | _, _ => Unmodelled
          end in
      let* rest := writeFields r m in
      Returns (here ++ rest)
  end.

Definition refEncode (t : Decl) (m : Props) : Outcome (list byte) :=
  if supported t then writeFields (sortedFields t) m else Unmodelled.

Definition refDecode (t : Decl) (buf : list byte) : Outcome Props :=
  if supported t then readMessage (length buf) (fields t) buf [] else Unmodelled.

Definition defaultOf (ty : FieldType) : JsValue :=
  match ty with
  | FInt32 => JNum 0
  | FBool => JBool false
  | FString => JStr ""
  | FOther _ => JNull
  end.

(** [toObject]: with [defaults] every field first receives its default,
    then the fields the message holds are copied. *)
Definition refToObject (t : Decl) (m : Props) (o : IConversionOptions)
    : Outcome Props :=
  if supported t then
    let fs := sortedFields t in
    let d := if defaults o
             then fold_left (fun d f => Js.set (fieldName f) (defaultOf (fieldType f)) d) fs []
             else [] in
    Returns (fold_left
               (fun d f =>
                  let v := Js.get (fieldName f) m in
                  if isNullish v then d else Js.set (fieldName f) v d)
               fs d)
  else Unmodelled.

Definition runtime : Protobuf := {|
    Root := RefRoot;
    MessageType := Decl;
    Message := Props;
    newRoot := [];
    setResolvePath := fun _ r => r;
    parse := refParse;
    resolveAll := refResolveAll;
    lookupType := refLookupType;
    verify := refVerify;
    create := refCreate;
    encode := refEncode;
    decode := refDecode;
    toObject := refToObject
  |}.

(** *** A schema used below *)

(** A user file: package [common] with the message [Status]. *)
Definition commonProto : ProtoFile :=
  mkProtoFile "common.proto"
    (SchemaResolver.lines
       [("syntax = " ++ SchemaResolver.dq ++ "proto3" ++ SchemaResolver.dq ++ ";")%string;
        "package common;";
        "message Status { int32 code = 1; string note = 2; bool final = 3; }"]).

(** The schema graph resolved from [common.proto] alone. *)
Definition statusRoot : RefRoot :=
  Eval vm_compute in
  match @SchemaResolver.parseProtoFiles runtime [commonProto] with
  | Returns r => r
  | _ => []
  end.

Definition statusUrl : string := "type.googleapis.com/common.Status".

End ReferenceRuntime.

(** ** Reference header rules

    An instance of [GrpcMetadata], after the checks of [@grpc/grpc-js]:
    a key is made of lower-case letters, digits, [_], [.] and [-] and is
    not empty; a key that ends in [-bin] wants a buffer, which
    [createMetadata] never gives; a string value is made of printable
    ASCII characters. *)

Module ReferenceMetadata.

Import SchemaResolver.

Definition between (lo hi : nat) (c : ascii) : bool :=
  (lo <=? nat_of_ascii c) && (nat_of_ascii c <=? hi).

Definition legalKeyChar (c : ascii) : bool :=
  between 48 57 c || between 97 122 c
  || Ascii.eqb c "_" || Ascii.eqb c "." || Ascii.eqb c "-".

Definition isLegalKey (k : string) : bool :=
  JsString.truthy k && forallb legalKeyChar (JsString.chars k).

Fixpoint endsWith (tail s : string) : bool :=
  String.eqb s tail
  || match s with
     | EmptyString => false
     | String _ rest => endsWith tail rest
     end.

Definition isLegalNonBinaryValue (v : string) : bool :=
  forallb (between 32 126) (JsString.chars v).

Definition refValidate (k v : string) : option JsError :=
  if negb (isLegalKey k)
  then Some (Error ("Metadata key " ++ dq ++ k ++ dq ++ " contains illegal characters"))
  else if endsWith "-bin" k
  then Some (Error "keys that end with '-bin' must have Buffer values")
  else if negb (isLegalNonBinaryValue v)
  then Some (Error ("Metadata string value " ++ dq ++ v ++ dq
                    ++ " contains illegal characters"))
  else None.

Definition rules : GrpcMetadata := {| validate := refValidate |}.

End ReferenceMetadata.

(** ** A simulated host

    An instance of the [Host] interface: a file system that records the
    paths created under the staging directory and whose removals can be
    made to fail, a loader that accepts every file, and a package with
    the single service [demo.Echo]. *)

Module SimHost.

Record SimWorld : Type := mkSimWorld {
    paths : list string;
    nextId : nat;
    removalDenied : bool
  }.

Definition join (a b : string) : string := (a ++ "/" ++ b)%string.

Fixpoint dirnameChars (l : list ascii) : list ascii :=
  match l with
  | [] => []
  | c :: r => if existsb (Ascii.eqb "/") r then c :: dirnameChars r else []
  end.

Definition dirname (p : string) : string :=
  JsString.of_chars (dirnameChars (JsString.chars p)).

Definition exists_ (w : SimWorld) (p : string) : bool :=
  existsb (String.eqb p) (paths w).

Definition addPath (p : string) (w : SimWorld) : SimWorld :=
  mkSimWorld (p :: paths w) (nextId w) (removalDenied w).

Definition under (dir p : string) : bool :=
  String.eqb p dir || String.prefix (dir ++ "/") p.

Definition mkdtemp (prefix : string) (w : SimWorld) : Outcome string * SimWorld :=
  let dir := (prefix ++ Js.natToString (nextId w))%string in
  (Returns dir, mkSimWorld (dir :: paths w) (S (nextId w)) (removalDenied w)).

Definition rm (dir : string) (w : SimWorld) : Outcome unit * SimWorld :=
  if removalDenied w
  then (Throws (Error "EPERM: operation not permitted, rmdir"), w)
  else (Returns tt,
        mkSimWorld (filter (fun p => negb (under dir p)) (paths w))
                   (nextId w) (removalDenied w)).

Definition echoClient : GrpcClient :=
  mkGrpcClient (fun _ => None).

Definition host : Host := {|
    World := SimWorld;
    PackageDefinition := list string;
    ServiceClientConstructor := unit;
    ChannelCredentials := bool;
    tmpdir := "/tmp";
    pathJoin := join;
    pathDirname := dirname;
    pathExists := exists_;
    mkdtempSync := mkdtemp;
    mkdirSync := fun p w => (Returns tt, addPath p w);
    writeFileSync := fun p _ w => (Returns tt, addPath p w);
    rmSync := rm;
    load := fun files _ w => (Returns files, w);
    loadPackageDefinition := fun _ =>
      Returns (GNamespace [("demo", GNamespace [("Echo", GServiceClient tt);
                                                ("Ping", GTypeDefinition)])]);
    createSsl := Returns true;
    createInsecure := Returns false;
    construct := fun _ _ _ => Returns echoClient
  |}.

Definition config : GrpcConfig :=
  mkGrpcConfig "localhost:50051" false [] [ReferenceRuntime.commonProto].

Definition fresh (denied : bool) : SimWorld := mkSimWorld [] 0 denied.

End SimHost.

(** * Specifications and sample data *)

Module SplitterSpec.

Import JsString Regex ProtoParser.

(** The files the markers delimit, following the specification: the
    text between a marker and the next one (or the end of the input),
    trimmed, under the name the marker gives; empty files dropped. *)
Fixpoint markerFiles (text : string) (markers : list Match) : list ProtoFile :=
  match markers with
  | [] => []
  | m :: later =>
      let upto :=
        match later with
        | next :: _ => index next
        | [] => String.length text
        end in
      let body := trim (slice text (stop m) upto) in
      (if truthy body then [mkProtoFile (trim (group1 text m)) body] else [])
        ++ markerFiles text later
  end.

Definition lf : string := String (ascii_of_nat 10) "".

(** ["[[=== a.proto ===]]\nX\n[[== b.proto ==]]\nY"] *)
Definition twoFiles : string :=
  "[[=== a.proto ===]]" ++ lf ++ "X" ++ lf ++ "[[== b.proto ==]]" ++ lf ++ "Y".

(** *** Boundary-marker lines, after the delimiter syntax of the
    specification

    None of the definitions below uses the delimiter expression of the
    source or its matcher. *)

Fixpoint takeWhile (p : ascii -> bool) (l : list ascii) : list ascii :=
  match l with
  | c :: r => if p c then c :: takeWhile p r else []
  | [] => []
  end.

Definition stripChar (c : ascii) (s : list ascii) : option (list ascii) :=
  match s with
  | x :: r => if Ascii.eqb x c then Some r else None
  | [] => None
  end.

Definition nonEmpty (l : list ascii) : bool :=
  match l with [] => false | _ :: _ => true end.

(** At least one character, and then [.proto]. *)
Definition endsInProto (name : list ascii) : bool :=
  (6 <? length name)
  && String.eqb (of_chars (skipn (length name - 6) name)) ".proto".

(** The marker syntax, read from the start of [s]: [[[], one or more
    [=], optional white space, a file name that ends in [.proto],
    optional white space, one or more [=], and []]].  The white space
    and the file name hold neither []] nor [=]: together they are the
    part between the two runs of [=], and the file name ends where the
    white space at the end of that part begins.  The result is that
    part, and what follows the []]]. *)
Definition markerShape (s : list ascii) : option (list ascii * list ascii) :=
  match stripChar "[" s with
  | None => None
  | Some s1 =>
  match stripChar "[" s1 with
  | None => None
  | Some s2 =>
      let opening := takeWhile isEquals s2 in
      let s3 := dropWhile isEquals s2 in
      let named := takeWhile notBracketOrEquals s3 in
      let s4 := dropWhile notBracketOrEquals s3 in
      let closing := takeWhile isEquals s4 in
      let s5 := dropWhile isEquals s4 in
      match stripChar "]" s5 with
      | None => None
      | Some s6 =>
      match stripChar "]" s6 with
      | None => None
      | Some s7 =>
          if nonEmpty opening && nonEmpty closing && endsInProto (trimEndChars named)
          then Some (named, s7)
          else None
      end
      end
  end
  end.

(** The line a text begins with: the characters before its first line
    terminator. *)
Definition lineAt (s : list ascii) : list ascii :=
  takeWhile (fun c => negb (isLineTerminator c)) s.

Definition blank (l : list ascii) : bool := forallb isWhiteSpace l.

(** A boundary-marker line, and the file name it gives: the line
    consists of the marker syntax, and nothing but white space follows
    the []]] on it. *)
Definition markerLine (line : list ascii) : option string :=
  match markerShape line with
  | Some (named, rest) =>
      if blank rest then Some (of_chars (trimChars named)) else None
  | None => None
  end.

(** The marker syntax read without regard to the lines: the white space
    and the file name may run over line terminators, and nothing but
    white space follows the []]] up to the end of its line. *)
Definition markerAt (s : list ascii) : bool :=
  match markerShape s with
  | Some (named, rest) => blank (lineAt rest)
  | None => false
  end.

(** A line begins at the start of the text and after every line
    terminator. *)
Definition beginsLine (prev : option ascii) : bool :=
  match prev with
  | None => true
  | Some c => isLineTerminator c
  end.

(** A marker line of a text: where it begins, where it ends, and the
    file name it gives. *)
Record MarkerLine : Type := mkMarkerLine {
    lineStart : nat;
    lineEnd : nat;
    fileName : string
  }.

(** The marker lines of the text [s], which begins at offset [pos] after
    the character [prev]. *)
Fixpoint markerLinesFrom (prev : option ascii) (s : list ascii) (pos : nat)
    : list MarkerLine :=
  match s with
  | [] => []
  | c :: r =>
      (if beginsLine prev then
         match markerLine (lineAt s) with
         | Some name => [mkMarkerLine pos (pos + length (lineAt s)) name]
         | None => []
         end
       else [])
      ++ markerLinesFrom (Some c) r (S pos)
  end.

Definition markerLines (text : string) : list MarkerLine :=
  markerLinesFrom None (chars text) 0.

(** The offsets of the lines that are no marker lines although the
    marker syntax can be read at their start when it is let run over
    line terminators. *)
Fixpoint runawayMarkersFrom (prev : option ascii) (s : list ascii) (pos : nat)
    : list nat :=
  match s with
  | [] => []
  | c :: r =>
      (if beginsLine prev && markerAt s then
         match markerLine (lineAt s) with
         | Some _ => []
         | None => [pos]
         end
       else [])
      ++ runawayMarkersFrom (Some c) r (S pos)
  end.

Definition runawayMarkers (text : string) : list nat :=
  runawayMarkersFrom None (chars text) 0.

(** The files of the marker lines, following the specification: for each
    marker line, in order, the text between it and the next marker line
    (or the end of the input), trimmed, under the file name of the
    marker line; a file whose trimmed content is empty is dropped, and
    so is the text before the first marker line. *)
Fixpoint filesOf (text : string) (markers : list MarkerLine) : list ProtoFile :=
  match markers with
  | [] => []
  | m :: later =>
      let upto :=
        match later with
        | next :: _ => lineStart next
        | [] => String.length text
        end in
      let body := trim (slice text (lineEnd m) upto) in
      (if truthy body then [mkProtoFile (fileName m) body] else [])
        ++ filesOf text later
  end.

(** ["[[=x\ny.proto=]]\nZ"]: the marker syntax, with a line terminator
    in the file name. *)
Definition runaway : string :=
  "[[=x" ++ lf ++ "y.proto=]]" ++ lf ++ "Z".

End SplitterSpec.

Module MetadataSpec.

Import JsString GrpcCodec.

Definition text (s : option string) : string :=
  match s with
  | Some x => x
  | None => ""
  end.

(** An entry is kept when its key and its value are both non-empty
    once trimmed. *)
Definition kept (e : MetadataEntry) : bool :=
  truthy (trim (text (key e))) && truthy (trim (text (value e))).

(** What a kept entry is transmitted as. *)
Definition sent (e : MetadataEntry) : string * string :=
  (toLowerCase (trim (text (key e))), trim (text (value e))).

(** The error of the first header of a list that [Metadata.add]
    refuses. *)
Fixpoint firstRefused {lib : GrpcMetadata} (headers : list (string * string))
    : option JsError :=
  match headers with
  | [] => None
  | (k, v) :: rest =>
      match validate k v with
      | Some e => Some e
      | None => firstRefused rest
      end
  end.


Definition badKey : list MetadataEntry :=
  [mkMetadataEntry (Some "Bad Key") (Some "v");
   mkMetadataEntry (Some "ok") (Some "v")].

End MetadataSpec.

Module CodecSpec.

Import GrpcCodec.

Section Generic.

Context {pb : Protobuf}.

(** The two loops of the request walk, named. *)
Fixpoint mapRequest (root : Root) (l : list JsValue) : Outcome (list JsValue) :=
  match l with
  | [] => Returns []
  | item :: rest =>
      let* y := processRequestForAny item root in
      let* ys := mapRequest root rest in
      Returns (y :: ys)
  end.

Fixpoint fieldsRequest (root : Root) (l result : Props) : Outcome Props :=
  match l with
  | [] => Returns result
  | (k, v) :: rest =>
      let* v' := processRequestForAny v root in
      fieldsRequest root rest (Js.assign k v' result)
  end.

(** [Reaches x request]: the walk over [request] comes to the tagged
    object [x], through arrays and through objects that carry no
    [@type] key themselves. *)
Inductive Reaches (x : Props) : JsValue -> Prop :=
  | ReachesHere : Reaches x (JObj x)
  | ReachesItem (items : list JsValue) (v : JsValue) :
      In v items -> Reaches x v -> Reaches x (JArr items)
  | ReachesField (record : Props) (k : string) (v : JsValue) :
      Js.has "@type" record = false -> In (k, v) record -> Reaches x v ->
      Reaches x (JObj record).




End Generic.

End CodecSpec.

Module CodecData.

Import ReferenceRuntime.

Definition missingUrl : string := "type.googleapis.com/acme.Missing".

Definition fullStatus : Props :=
  [("@type", JStr statusUrl); ("code", JNum (-2)); ("note", JStr "hi");
   ("final", JBool true)].

End CodecData.

Module ResolverSpec.

Import SchemaResolver.

Section Generic.

Context {pb : Protobuf}.

(** The root once the well-known sources have been parsed into it. *)
Definition seeded : Root :=
  parseWellKnown getWellKnownTypes (setResolvePath (fun _ target => target) newRoot).


(** The root the seeding loop starts from. *)
Definition fresh : Root := setResolvePath (fun _ target => target) newRoot.


End Generic.




End ResolverSpec.

Module StreamSpec.

Import GrpcCodec GrpcClientModule ReferenceRuntime.





Definition tick (n : Z) : JsValue := JObj [("n", JNum n)].

Definition opaque : JsValue :=
  JObj [("detail", JObj [("type_url", JStr "type.googleapis.com/acme.Missing");
                         ("value", JBytes [x01; x02]%byte)])].


(** A message that holds an Any value of the type [common.Status], the
    payload being [code = 5], and what it decodes to. *)
Definition tracked : JsValue :=
  JObj [("id", JNum 7);
        ("detail", JObj [("type_url", JStr statusUrl);
                         ("value", JBytes [x08; x05]%byte)])].


(** A client with three streaming methods: [Watch] ends after two
    messages, [Fail] breaks with status 14 after one, [Track] ends after
    three. *)
Definition watcher : GrpcClient :=
  mkGrpcClient (fun name =>
    if String.eqb name "Watch" then Some (fun _ _ _ => [EvData (tick 1); EvData opaque; EvEnd])
    else if String.eqb name "Fail"
         then Some (fun _ _ _ => [EvData (tick 1); EvError 14 "unavailable"; EvEnd])
    else if String.eqb name "Track"
         then Some (fun _ _ _ => [EvData tracked; EvData (JArr [tick 2; opaque]);
                                  EvData (tick 3); EvEnd])
    else None).

Definition watching : GrpcClientWrapper (pb := runtime) :=
  @mkWrapper runtime watcher statusRoot "demo.Echo" "/tmp/n8n-grpc-0".

End StreamSpec.

Module ConstructionData.

Import GrpcClientModule SimHost.

Definition staging : string := "/tmp/n8n-grpc-0".

Definition notFound : JsError := serviceNotFound "demo.Nope".

End ConstructionData.

(** * Further specifications *)

Module MarkerSpec.

Import JsString Regex ProtoParser.

(** The atoms that leave the capture group alone. *)
Definition groupFree (a : Atom) : bool :=
  match a with
  | GroupOpen | GroupClose => false
  | _ => true
  end.

(** The delimiter expression in three parts: what precedes the group,
    the group, and what follows it. *)
Definition dotProto : list ascii := chars ".proto".

Definition nameGroup (tail : Pattern) : Pattern :=
  [GroupOpen; Plus notBracketOrEquals] ++ lit ".proto" ++ [GroupClose] ++ tail.

Definition beforeGroup : Pattern :=
  [Bol] ++ lit "[[" ++ [Plus isEquals; Star isWhiteSpace].

Definition afterGroup : Pattern :=
  [Star isWhiteSpace; Plus isEquals] ++ lit "]]" ++ [Star isWhiteSpace; Eol].

End MarkerSpec.

Module WalkSpec.

Import GrpcCodec.






(** A response tree as the transport delivers it: wherever an object
    carries both [type_url] and [value], the first is a string and the
    second a buffer, or absent. *)
Fixpoint wireShaped (v : JsValue) : bool :=
  match v with
  | JArr items => forallb wireShaped items
  | JObj record =>
      if Js.has "type_url" record && Js.has "value" record then
        match Js.get "type_url" record, Js.get "value" record with
        | JStr _, (JBytes _ | JNull | JUndefined) => true
        | _, _ => false
        end
      else forallb (fun kv => match kv with (_, x) => wireShaped x end) record
  | _ => true
  end.

Section Generic.

Context {pb : Protobuf}.

(** The two loops of the response walk, named. *)
Fixpoint mapResponse (root : Root) (l : list JsValue) : Outcome (list JsValue) :=
  match l with
  | [] => Returns []
  | item :: rest =>
      let* y := processResponseForAny item root in
      let* ys := mapResponse root rest in
      Returns (y :: ys)
  end.

Fixpoint fieldsResponse (root : Root) (l result : Props) : Outcome Props :=
  match l with
  | [] => Returns result
  | (k, v) :: rest =>
      let* v' := processResponseForAny v root in
      fieldsResponse root rest (Js.assign k v' result)
  end.

End Generic.

End WalkSpec.

Module WalkData.

Import ReferenceRuntime.



End WalkData.

(** * The rest of the client wrapper *)

Module GrpcClientMethods.

Import GrpcCodec GrpcClientModule.

(** What a unary member hands to its callback: an error, or a response. *)
Inductive UnaryReply : Type :=
  | ReplyError (code : Z) (message : string)
  | ReplyOk (response : JsValue).

(** A unary member of the transport client, by the reply it calls back
    with, if it ever calls back. *)
Definition UnaryMember : Type :=
  JsValue -> Metadata.t -> CallOptions -> option UnaryReply.

(** What the caller of [invokeUnary] observes. *)
Inductive UnaryOutcome : Type :=
  | UResolved (response : JsValue)
  | URejected (e : JsError)
  | UPending
  | UCallbackThrew (e : JsError)    (* an exception no code here catches *)
  | UUnmodelled.

Definition unaryError (code : Z) (message : string) : JsError :=
  Error ("gRPC error (" ++ Js.intToString code ++ "): " ++ message).

Section WithHost.

Context {pb : Protobuf} {hostEnv : Host} {lib : GrpcMetadata}.

(** [invokeUnary].  [members] is [this.client] seen through its unary
    members: [members methodName] is [None] when
    [this.client[methodName]] is not a function.  What is thrown before
    the promise is made, by [createMetadata] or by the request walk,
    rejects the promise the [async] method returns. *)
Definition invokeUnary (this : GrpcClientWrapper) (members : string -> option UnaryMember)
    (methodName : string) (request : JsValue) (entries : list MetadataEntry)
    (options : GrpcCallOptions) (now : Z) : UnaryOutcome :=
  match createMetadata entries with
  | Throws e => URejected e
  | Unmodelled => UUnmodelled
  | Returns grpcMetadata =>
      let callOptions := callOptionsFor options now in
      match processRequestForAny request (root this) with
      | Throws e => URejected e
      | Unmodelled => UUnmodelled
      | Returns processedRequest =>
          match members methodName with
          | None => URejected (methodNotFound methodName (serviceName this))
          | Some method =>
              match method processedRequest grpcMetadata callOptions with
              | None => UPending
              | Some (ReplyError code message) => URejected (unaryError code message)
              | Some (ReplyOk response) =>
                  match processResponseForAny response (root this) with
                  | Returns processedResponse => UResolved processedResponse
                  | Throws e => UCallbackThrew e
                  | Unmodelled => UUnmodelled
                  end
              end
          end
      end
  end.

(** [close].  [closeClient] is [this.client.close()]. *)
Definition close (closeClient : GrpcClient -> IO unit) (this : GrpcClientWrapper)
    : IO unit :=
  seqIO (closeClient (client this)) (fun _ => cleanupTempDir (tempDir this)).

End WithHost.

End GrpcClientMethods.

Module CallSpec.

Import GrpcCodec SchemaResolver GrpcClientModule GrpcClientMethods WalkSpec.

(** A call that returned. *)
Definition returned {A : Type} (o : Outcome A) : bool :=
  match o with
  | Returns _ => true
  | _ => false
  end.

(** A name with no dot in it. *)
Definition dotless (s : string) : bool :=
  forallb (fun c => negb (Ascii.eqb c ".")) (JsString.chars s).

(** A stream whose data events are all wire shaped. *)
Definition wireEvents (events : list StreamEvent) : bool :=
  forallb (fun ev => match ev with EvData d => wireShaped d | _ => true end) events.

Section Generic.

Context {pb : Protobuf}.

(** The root after every file of the list has been parsed into it, in
    order, when none fails. *)
Fixpoint parsedInto (files : list ProtoFile) (root : Root) : option Root :=
  match files with
  | [] => Some root
  | file :: rest =>
      match parse (content file) root with
      | (root', None) => parsedInto rest root'
      | (_, Some _) => None
      end
  end.

End Generic.

End CallSpec.

Module TagSpec.

Import GrpcCodec.

(** A name with no slash in it. *)
Definition slashless (s : string) : bool :=
  forallb (fun c => negb (Ascii.eqb "/" c)) (JsString.chars s).

(** The same outcome, with the wire object's [type_url] written anew. *)
Definition retagged (typeUrl : string) (o : Outcome JsValue) : Outcome JsValue :=
  let* v := o in
  match v with
  | JObj wire => Returns (JObj (Js.set "type_url" (JStr typeUrl) wire))
  | _ => Returns v
  end.

End TagSpec.

Module CallData.

Import GrpcClientModule GrpcClientMethods ReferenceRuntime StreamSpec.

(** Two unary members: [Say] answers with an Any value of a type the
    schema does not hold, [Deny] with status 7. *)
Definition unaryEcho (name : string) : option UnaryMember :=
  if String.eqb name "Say" then Some (fun _ _ _ => Some (ReplyOk opaque))
  else if String.eqb name "Deny"
       then Some (fun _ _ _ => Some (ReplyError 7 "permission denied"))
  else None.

Definition unknownTag : Props :=
  [("@type", JStr "type.googleapis.com/acme.Missing"); ("n", JNum 1)].

Definition services : GrpcObject nat :=
  GNamespace [("demo", GNamespace [("Echo", GServiceClient 1);
                                   ("Ping", GTypeDefinition);
                                   ("v1", GNamespace [("Echo", GServiceClient 2)])])].

Definition brokenProto : ProtoFile := mkProtoFile "broken.proto" "nonsense".

Definition lateProto : ProtoFile := mkProtoFile "late.proto" "message Late {}".

End CallData.

(** * The node's helper *)

Module NodeHelpers.

(** The names every object inherits from [Object.prototype].  For such
    a group name [raw[groupName]] and [groupName in item] see the
    inherited member; that case is left unmodelled. *)
Definition inheritedNames : list string :=
  ["constructor"; "__proto__"; "hasOwnProperty"; "isPrototypeOf";
   "propertyIsEnumerable"; "toLocaleString"; "toString"; "valueOf";
   "__defineGetter__"; "__defineSetter__"; "__lookupGetter__"; "__lookupSetter__"].

(** What one item of the array shape contributes.  A buffer is an
    object with members of its own kind; it is left unmodelled. *)
Definition itemValues (groupName : string) (item : JsValue) : Outcome (list JsValue) :=
  match item with
  | JObj record =>
      if Js.has groupName record then
        match Js.get groupName record with
        | JArr v => Returns v
        | JObj v => Returns [JObj v]
        | JBytes v => Returns [JBytes v]
        | _ => Returns []
        end
      else Returns [item]
  | JBytes _ => Unmodelled
  | _ => Returns []
  end.

Fixpoint collect (groupName : string) (raw : list JsValue) (result : list JsValue)
    : Outcome (list JsValue) :=
  match raw with
  | [] => Returns result
  | item :: rest =>
      let* values := itemValues groupName item in
      collect groupName rest (result ++ values)
  end.

Definition normalizeFixedCollectionArray (raw : JsValue) (groupName : string)
    : Outcome (list JsValue) :=
  if negb (Js.truthy raw) then Returns []
  else if existsb (String.eqb groupName) inheritedNames then Unmodelled
  else
    match raw with
    | JObj record =>
        match Js.get groupName record with
        | JArr groupValue => Returns groupValue
        | JObj groupValue => Returns [JObj groupValue]
        | JBytes groupValue => Returns [JBytes groupValue]
        | _ => Returns []
        end
    | JArr items => collect groupName items []
    | JBytes _ => Unmodelled
    | _ => Returns []
    end.

(** A plain object that has no member of the given name. *)
Definition plainWithout (groupName : string) (v : JsValue) : bool :=
  match v with
  | JObj record => negb (Js.has groupName record)
  | _ => false
  end.

End NodeHelpers.

(** * Service discovery *)

Module Discovery.

(** A method as protobufjs reflects it; the stream flags may be
    missing. *)
Record Method : Type := mkMethod {
    methodName : string;
    methodRequestType : string;
    methodResponseType : string;
    methodRequestStream : option bool;
    methodResponseStream : option bool
  }.

(** What [nestedArray] holds: name spaces, message types and services,
    which are all name spaces with a [nestedArray] of their own, and
    enums and extension fields, which are not. *)
Inductive ReflectionObject : Type :=
  | RNamespace (name : string) (nestedArray : list ReflectionObject)
  | RType (name : string) (nestedArray : list ReflectionObject)
  | RService (name : string) (methodsArray : list Method)
             (nestedArray : list ReflectionObject)
  | RLeaf (name : string).

Record MethodInfo : Type := mkMethodInfo {
    name : string;
    requestType : string;
    responseType : string;
    requestStream : bool;
    responseStream : bool
  }.

Record ServiceInfo : Type := mkServiceInfo {
    serviceName : string;
    fullName : string;
    methods : list MethodInfo
  }.

(** [flag || false] *)
Definition orFalse (flag : option bool) : bool :=
  match flag with
  | Some b => b
  | None => false
  end.

Definition methodInfo (method : Method) : MethodInfo :=
  mkMethodInfo (methodName method) (methodRequestType method) (methodResponseType method)
    (orFalse (methodRequestStream method)) (orFalse (methodResponseStream method)).

(** [parentPath ? `${parentPath}.${nested.name}` : nested.name] *)
Definition currentPath (parentPath name : string) : string :=
  if JsString.truthy parentPath then (parentPath ++ "." ++ name)%string else name.

(** One turn of the loop of [walkNamespace]: the services pushed for
    [nested], in the order of the pushes. *)
Fixpoint walkObject (parentPath : string) (nested : ReflectionObject)
    : list ServiceInfo :=
  match nested with
  | RService name methodsArray nestedArray =>
      mkServiceInfo name (currentPath parentPath name) (map methodInfo methodsArray)
      :: flat_map (walkObject (currentPath parentPath name)) nestedArray
  | RNamespace name nestedArray | RType name nestedArray =>
      flat_map (walkObject (currentPath parentPath name)) nestedArray
  | RLeaf _ => []
  end.

Definition walkNamespace (nestedArray : list ReflectionObject) (parentPath : string)
    : list ServiceInfo :=
  flat_map (walkObject parentPath) nestedArray.

(** [discoverServices], on the [nestedArray] of the root. *)
Definition discoverServices (root : list ReflectionObject) : list ServiceInfo :=
  walkNamespace root "".

(** *** What the discovery should give *)

(** The services of a tree, each with the names on the way to it from
    the root, its own name last. *)
Fixpoint servicePaths (above : list string) (o : ReflectionObject)
    : list (list string * list Method) :=
  match o with
  | RService name methodsArray nestedArray =>
      (above ++ [name], methodsArray)
      :: flat_map (servicePaths (above ++ [name])) nestedArray
  | RNamespace name nestedArray | RType name nestedArray =>
      flat_map (servicePaths (above ++ [name])) nestedArray
  | RLeaf _ => []
  end.

Definition describe (found : list string * list Method) : ServiceInfo :=
  mkServiceInfo (last (fst found) "") (String.concat "." (fst found))
    (map methodInfo (snd found)).

(** Every name space, type and service of the tree has a name for which
    [p] holds. *)
Fixpoint named (p : string -> bool) (o : ReflectionObject) : bool :=
  match o with
  | RService name _ nestedArray | RNamespace name nestedArray | RType name nestedArray =>
      p name && forallb (named p) nestedArray
  | RLeaf _ => true
  end.

Definition identifier (s : string) : bool :=
  JsString.truthy s && CallSpec.dotless s.

(** A package [shop.v1] with a message type, an enum and two services,
    one of which is declared inside the other name space [admin]. *)
Definition shop : list ReflectionObject :=
  [RNamespace "shop"
     [RNamespace "v1"
        [RType "Order" [RLeaf "Status"];
         RService "Orders"
           [mkMethod "Get" "GetRequest" "Order" None None;
            mkMethod "Watch" "WatchRequest" "Order" None (Some true)] [];
         RNamespace "admin"
           [RService "Audit" [mkMethod "List" "ListRequest" "ListReply" (Some false) None]
              []]]]].

End Discovery.

(** * Request skeletons *)

Module Skeleton.

(** What a field's type resolved to: nothing for a scalar, an enum by
    the names of its values, a message type by its full name. *)
Inductive Resolved : Type :=
  | NotResolved
  | ResolvedEnum (values : list string)
  | ResolvedType (fullName : string).

Record Field : Type := mkField {
    name : string;
    type : string;
    repeated : bool;
    resolvedType : Resolved
  }.

(** The [fieldsArray] of the message type of each full name. *)
Definition Schema : Type := string -> list Field.

Fixpoint includes (part s : string) : bool :=
  String.prefix part s
  || match s with
     | EmptyString => false
     | String _ rest => includes part rest
     end.

Fixpoint endsWith (tail s : string) : bool :=
  String.eqb s tail
  || match s with
     | EmptyString => false
     | String _ rest => endsWith tail rest
     end.

Definition getWrapperDefault (fullName : string) : JsValue :=
  if includes "Double" fullName || includes "Float" fullName then JNum 0
  else if includes "Int" fullName || includes "UInt" fullName then JNum 0
  else if includes "Bool" fullName then JBool false
  else if includes "String" fullName then JStr ""
  else if includes "Bytes" fullName then JStr ""
  else JNull.

(** The [switch] on [field.type]. *)
Definition scalarDefault (type : string) : JsValue :=
  if existsb (String.eqb type) ["double"; "float"] then JNum 0
  else if existsb (String.eqb type)
            ["int32"; "int64"; "uint32"; "uint64"; "sint32"; "sint64";
             "fixed32"; "fixed64"; "sfixed32"; "sfixed64"] then JNum 0
  else if String.eqb type "bool" then JBool false
  else if String.eqb type "string" then JStr ""
  else if String.eqb type "bytes" then JStr ""
  else JNull.

(** The templates of the message types answered by name. *)
Definition template (fullName : string) : option Props :=
  if String.eqb fullName ".google.protobuf.Any"
  then Some [("@type", JStr "type.googleapis.com/your.message.Type")]
  else if String.eqb fullName ".google.protobuf.Timestamp"
  then Some [("seconds", JNum 0); ("nanos", JNum 0)]
  else if String.eqb fullName ".google.protobuf.Duration"
  then Some [("seconds", JNum 0); ("nanos", JNum 0)]
  else if String.eqb fullName ".google.protobuf.Struct"
  then Some [("fields", JObj [])]
  else if String.eqb fullName ".google.protobuf.Value"
  then Some [("string_value", JStr "")]
  else if String.prefix ".google.protobuf." fullName && endsWith "Value" fullName
  then Some [("value", getWrapperDefault fullName)]
  else if String.eqb fullName ".google.protobuf.Empty"
  then Some []
  else None.

(** [getFieldDefault], with the call back into [generateRequestSkeleton]
    as a parameter. *)
Definition getFieldDefaultWith (generate : string -> option Props) (field : Field)
    : option JsValue :=
  match resolvedType field with
  | ResolvedType fullName =>
      match template fullName with
      | Some props => Some (JObj props)
      | None => option_map JObj (generate fullName)
      end
  | ResolvedEnum values =>
      match values with
      | first :: _ => Some (if JsString.truthy first then JStr first else JNum 0)
      | [] => Some (JNum 0)
      end
  | NotResolved => Some (scalarDefault (type field))
  end.

(** The loop over [type.fieldsArray]. *)
Fixpoint fill (generate : string -> option Props) (fields : list Field) (obj : Props)
    : option Props :=
  match fields with
  | [] => Some obj
  | field :: rest =>
      match getFieldDefaultWith generate field with
      | Some value =>
          fill generate rest
            (Js.set (name field) (if repeated field then JArr [value] else value) obj)
      | None => None
      end
  end.

(** [generateRequestSkeleton], on the type of the given full name.  The
    recursion follows the schema, which may lead back to a type it came
    from: [depth] bounds the nesting of the calls, and [None] is a
    recursion that goes deeper. *)
Fixpoint generateRequestSkeleton (depth : nat) (schema : Schema) (fullName : string)
    : option Props :=
  match depth with
  | 0 => None
  | S depth' => fill (generateRequestSkeleton depth' schema) (schema fullName) []
  end.

Definition getFieldDefault (depth : nat) (schema : Schema) (field : Field)
    : option JsValue :=
  getFieldDefaultWith (generateRequestSkeleton depth schema) field.

(** The message type a field makes the generator descend into. *)
Definition descendsInto (field : Field) : option string :=
  match resolvedType field with
  | ResolvedType fullName =>
      match template fullName with
      | Some _ => None
      | None => Some fullName
      end
  | _ => None
  end.

(** The defaults of the wrapper types, and of [ListValue], whose name
    passes the same test. *)
Definition wrapperDefaults : list (string * JsValue) :=
  [("DoubleValue", JNum 0); ("FloatValue", JNum 0); ("Int64Value", JNum 0);
   ("UInt64Value", JNum 0); ("Int32Value", JNum 0); ("UInt32Value", JNum 0);
   ("BoolValue", JBool false); ("StringValue", JStr ""); ("BytesValue", JStr "");
   ("ListValue", JNull)].

(** *** Two schemas *)

Definition orders : Schema := fun fullName =>
  if String.eqb fullName ".shop.Order" then
    [mkField "id" "int32" false NotResolved;
     mkField "tags" "string" true NotResolved;
     mkField "placed" "google.protobuf.Timestamp" false
       (ResolvedType ".google.protobuf.Timestamp");
     mkField "status" "Status" false (ResolvedEnum ["PENDING"; "DONE"]);
     mkField "customer" "Customer" false (ResolvedType ".shop.Customer")]
  else if String.eqb fullName ".shop.Customer" then
    [mkField "name" "string" false NotResolved;
     mkField "note" "google.protobuf.StringValue" false
       (ResolvedType ".google.protobuf.StringValue")]
  else [].

Definition ordersRank (fullName : string) : nat :=
  if String.eqb fullName ".shop.Order" then 1 else 0.

(** A list cell that holds the next cell. *)
Definition linked : Schema := fun fullName =>
  if String.eqb fullName ".list.Node" then
    [mkField "value" "int32" false NotResolved;
     mkField "next" "Node" false (ResolvedType ".list.Node")]
  else [].

End Skeleton.

(** * Properties *)

(** ** Strings *)

Module StringFacts.

Import JsString.

Lemma of_chars_nil (l : list ascii) : of_chars l = "" <-> l = [].
Proof.
  destruct l; simpl; split; intros H; try reflexivity; discriminate.
Qed.


Lemma truthy_true (s : string) : truthy s = true <-> s <> "".
Proof.
  destruct s; simpl; split; intros H; try reflexivity; try discriminate.
  now elim H.
Qed.

Lemma dropWhile_all (p : ascii -> bool) (l : list ascii) :
  forallb p l = true -> dropWhile p l = [].
Proof.
  induction l as [|c r IH]; simpl; [reflexivity|].
  intros H. apply andb_true_iff in H as [Hc Hr]. rewrite Hc. auto.
Qed.

Lemma dropWhile_nil_all (p : ascii -> bool) (l : list ascii) :
  dropWhile p l = [] -> forallb p l = true.
Proof.
  induction l as [|c r IH]; simpl; [reflexivity|].
  destruct (p c); simpl; [exact IH | discriminate].
Qed.

Lemma forallb_rev (p : ascii -> bool) (l : list ascii) :
  forallb p (rev l) = forallb p l.
Proof.
  induction l as [|c r IH]; simpl; [reflexivity|].
  rewrite forallb_app, IH. simpl. rewrite andb_true_r. apply andb_comm.
Qed.

(** What [dropWhile] leaves starts with a character outside the class. *)
Lemma dropWhile_head (p : ascii -> bool) (l : list ascii) :
  forallb p (dropWhile p l) = true -> dropWhile p l = [].
Proof.
  induction l as [|c r IH]; simpl; [reflexivity|].
  destruct (p c) eqn:Hc; [exact IH|].
  simpl. rewrite Hc. discriminate.
Qed.

Lemma trimChars_blank (l : list ascii) :
  trimChars l = [] <-> forallb isWhiteSpace l = true.
Proof.
  unfold trimChars, trimEndChars, trimStartChars. split.
  - intros H.
    assert (H1 : dropWhile isWhiteSpace (rev (dropWhile isWhiteSpace l)) = []).
    { destruct (dropWhile isWhiteSpace (rev (dropWhile isWhiteSpace l))) as [|x xs];
        [reflexivity|].
      simpl in H. destruct (rev xs); discriminate. }
    apply dropWhile_nil_all in H1. rewrite forallb_rev in H1.
    apply dropWhile_head in H1. now apply dropWhile_nil_all.
  - intros H. rewrite (dropWhile_all _ _ H). reflexivity.
Qed.

Lemma trim_blank (s : string) :
  trim s = "" <-> forallb isWhiteSpace (chars s) = true.
Proof.
  unfold trim. rewrite of_chars_nil. apply trimChars_blank.
Qed.


End StringFacts.

(** ** The splitter *)

Module SplitterFacts.

Import JsString Regex ProtoParser StringFacts SplitterSpec.




Lemma nth_middle_succ {A : Type} (pre : list A) (m x : A) (suf : list A) (d : A) :
  nth (length pre + 1) (pre ++ m :: x :: suf) d = x.
Proof.
  replace (pre ++ m :: x :: suf) with ((pre ++ [m]) ++ x :: suf)
    by (rewrite <- app_assoc; reflexivity).
  replace (length pre + 1) with (length (pre ++ [m]))
    by (rewrite length_app; reflexivity).
  apply nth_middle.
Qed.

(** The loop, from the marker at position [length pre] on. *)
Lemma loop_markerFiles (text : string) (suf pre : list Match) (acc : list ProtoFile) :
  fold_left (splitStep text (pre ++ suf)) (seq (length pre) (length suf)) acc
  = acc ++ markerFiles text suf.
Proof.
  revert pre acc. induction suf as [|m later IH]; intros pre acc.
  - simpl. now rewrite app_nil_r.
  - cbn [length seq fold_left].
    replace (pre ++ m :: later) with ((pre ++ [m]) ++ later)
      by (rewrite <- app_assoc; reflexivity).
    replace (S (length pre)) with (length (pre ++ [m]))
      by (rewrite length_app; simpl; lia).
    rewrite IH. cbn [markerFiles].
    rewrite <- app_assoc. cbn [app]. rewrite app_assoc. f_equal.
    unfold splitStep.
    rewrite nth_middle.
    replace (length pre + 1 <? length (pre ++ m :: later))
      with (match later with [] => false | _ => true end).
    2:{ rewrite length_app. destruct later; simpl; symmetry.
        - apply Nat.ltb_ge. lia.
        - apply Nat.ltb_lt. lia. }
    destruct later as [|next later'].
    + destruct (truthy _); [reflexivity | now rewrite app_nil_r].
    + rewrite nth_middle_succ.
      destruct (truthy _); [reflexivity | now rewrite app_nil_r].
Qed.


(** C10.  A text that is empty or made of white space only splits into no
    file at all: no [main.proto] entry is produced. *)
Theorem blank_text_splits_into_nothing (text : string) :
  forallb isWhiteSpace (chars text) = true ->
  parseDelimitedProtoContent text = [].
Proof.
  intros H. apply trim_blank in H. unfold parseDelimitedProtoContent.
  rewrite H. cbn [truthy negb]. now rewrite orb_true_r.
Qed.

Lemma blank_text_splits_into_nothing_witness :
  parseDelimitedProtoContent ("  " ++ lf ++ " ") = [].
Proof. apply blank_text_splits_into_nothing. reflexivity. Defined.






End SplitterFacts.

(** ** Metadata *)

Module MetadataFacts.

Import JsString GrpcCodec StringFacts MetadataSpec.

Section Generic.

Context {lib : GrpcMetadata}.

Lemma addEntry_kept (m : Metadata.t) (e : MetadataEntry) :
  addEntry m e
  = if kept e then Metadata.add (fst (sent e)) (snd (sent e)) m else Returns m.
Proof.
  unfold addEntry, kept, sent, optTrim.
  destruct (key e) as [k|], (value e) as [v|]; simpl; try reflexivity.
  now rewrite andb_false_r.
Qed.

Lemma addEntries_kept (entries : list MetadataEntry) (m : Metadata.t) :
  addEntries entries m
  = match firstRefused (map sent (filter kept entries)) with
    | Some e => Throws e
    | None => Returns (m ++ map sent (filter kept entries))
    end.
Proof.
  revert m. induction entries as [|e r IH]; intros m; cbn [addEntries filter].
  - cbn. now rewrite app_nil_r.
  - rewrite addEntry_kept. destruct (kept e); cbn [bind map firstRefused].
    + unfold Metadata.add. destruct (sent e) as [k v]. cbn [fst snd].
      destruct (validate k v) as [err|]; cbn [bind]; [reflexivity|].
      rewrite IH. destruct (firstRefused _); [reflexivity|].
      now rewrite <- app_assoc.
    + apply IH.
Qed.


End Generic.

(** *** On the reference header rules *)


(** C9, as stated, fails on a header the transport library refuses:
    both entries of the list have a key and a value that are not empty
    once trimmed, yet [add] throws on the space in [bad key], and
    nothing is transmitted, not even the second entry. *)
Lemma metadata_trimmed_and_lowercased_counterexample :
  map sent (filter kept badKey) = [("bad key", "v"); ("ok", "v")]
  /\ createMetadata (lib := ReferenceMetadata.rules) badKey
     = Throws (Error ("Metadata key " ++ SchemaResolver.dq ++ "bad key"
                      ++ SchemaResolver.dq ++ " contains illegal characters"))
  /\ forall transmitted,
       createMetadata (lib := ReferenceMetadata.rules) badKey <> Returns transmitted.
Proof.
  repeat split; try reflexivity. discriminate.
Qed.

End MetadataFacts.

(** ** The Any codec *)

Module CodecFacts.

Import GrpcCodec StringFacts CodecSpec.

Lemma get_has (k : string) (o : Props) :
  Js.get k o <> JUndefined -> Js.has k o = true.
Proof.
  unfold Js.has. induction o as [|[k' v] r IH]; simpl; intros H.
  - now elim H.
  - destruct (String.eqb k' k); [reflexivity | auto].
Qed.

Lemma set_fresh (k : string) (v : JsValue) (o : Props) :
  ~ In k (map fst o) -> Js.set k v o = o ++ [(k, v)].
Proof.
  induction o as [|[k' v'] r IH]; simpl; intros H; [reflexivity|].
  destruct (String.eqb_spec k' k) as [->|Hne].
  - elim H. now left.
  - rewrite IH; [reflexivity|]. intros Hin. apply H. now right.
Qed.

(** Spreading distinct, new keys appends them. *)
Lemma spread_fresh (extra base : Props) :
  NoDup (map fst (base ++ extra)) -> Js.spread base extra = base ++ extra.
Proof.
  unfold Js.spread. revert base.
  induction extra as [|[k v] r IH]; intros base H; simpl.
  - now rewrite app_nil_r.
  - assert (Hk : ~ In k (map fst base)).
    { rewrite map_app in H. simpl in H.
      apply NoDup_remove_2 in H. intros Hin. apply H.
      apply in_or_app. now left. }
    rewrite (set_fresh k v base Hk), IH.
    + now rewrite <- app_assoc.
    + rewrite <- app_assoc. exact H.
Qed.


Section Generic.

Context {pb : Protobuf}.

Lemma request_array (root : Root) (items : list JsValue) :
  processRequestForAny (JArr items) root
  = let* mapped := mapRequest root items in Returns (JArr mapped).
Proof.
  cbn [processRequestForAny]. f_equal.
  induction items as [|x r IH]; [reflexivity|].
  cbn [mapRequest]. now rewrite <- IH.
Qed.

Lemma request_object (root : Root) (record : Props) :
  processRequestForAny (JObj record) root
  = if Js.has "@type" record then encodeAnyValue record root
    else let* result := fieldsRequest root record [] in Returns (JObj result).
Proof.
  cbn [processRequestForAny]. destruct (Js.has "@type" record); [reflexivity|].
  f_equal. generalize (@nil (string * JsValue)).
  induction record as [|[k v] r IH]; intros acc; [reflexivity|].
  cbn [fieldsRequest]. destruct (processRequestForAny v root); try reflexivity.
  cbn [bind]. apply IH.
Qed.

Lemma response_any (root : Root) (record : Props) :
  Js.has "type_url" record = true -> Js.has "value" record = true ->
  processResponseForAny (JObj record) root = decodeAnyValue record root.
Proof.
  intros H1 H2. cbn [processResponseForAny]. now rewrite H1, H2.
Qed.

Lemma mapRequest_returns (root : Root) (l ys : list JsValue) :
  mapRequest root l = Returns ys ->
  forall x, In x l -> exists y, processRequestForAny x root = Returns y.
Proof.
  revert ys. induction l as [|a r IH]; intros ys H x Hin; [contradiction|].
  cbn [mapRequest] in H.
  destruct (processRequestForAny a root) as [y| |] eqn:Ea; try discriminate.
  cbn [bind] in H.
  destruct (mapRequest root r) as [ys'| |] eqn:Er; try discriminate.
  destruct Hin as [->|Hin]; [now exists y | now apply (IH ys')].
Qed.

Lemma fieldsRequest_returns (root : Root) (l acc out : Props) :
  fieldsRequest root l acc = Returns out ->
  forall k v, In (k, v) l -> exists y, processRequestForAny v root = Returns y.
Proof.
  revert acc. induction l as [|[k0 v0] r IH]; intros acc H k v Hin; [contradiction|].
  cbn [fieldsRequest] in H.
  destruct (processRequestForAny v0 root) as [y| |] eqn:Ea; try discriminate.
  cbn [bind] in H.
  destruct Hin as [E|Hin].
  - inversion E; subst. now exists y.
  - now apply (IH _ H k v).
Qed.

Lemma failure_reaches_the_top (root : Root) (x : Props) (e : JsError) :
  processRequestForAny (JObj x) root = Throws e ->
  forall request, Reaches x request ->
  forall v, processRequestForAny request root <> Returns v.
Proof.
  intros Hx request Hr. induction Hr as [|items v Hin Hr IH|record k v Htag Hin Hr IH];
    intros out H.
  - rewrite Hx in H. discriminate.
  - rewrite request_array in H.
    destruct (mapRequest root items) as [ys| |] eqn:E; try discriminate.
    destruct (mapRequest_returns _ _ _ E v Hin) as [y Hy]. now apply (IH y).
  - rewrite request_object, Htag in H.
    destruct (fieldsRequest root record []) as [ys| |] eqn:E; try discriminate.
    destruct (fieldsRequest_returns _ _ _ _ E k v Hin) as [y Hy]. now apply (IH y).
Qed.

Lemma truthy_tag (s : string) : s <> "" -> Js.truthy (JStr s) = true.
Proof. intros H. now apply truthy_true. Qed.

Lemma resolveType_none (root : Root) (name : string) :
  lookupType root name = None -> lookupType root ("." ++ name) = None ->
  resolveType root name = None.
Proof. intros H1 H2. unfold resolveType. now rewrite H1. Qed.

(** C2, amended.  An Any wire value whose [type_url] is a non-empty
    string, whose payload is a byte buffer, and whose type name resolves
    neither bare nor dot-prefixed, decodes without a throw to
    [{ "@type": typeUrl, value: base64(payload) }]; so does the response
    walk when it meets it. *)
Theorem unresolvable_any_degrades_to_base64
    (root : Root) (anyValue : Props) (typeUrl : string) (payload : list byte) :
  Js.get "type_url" anyValue = JStr typeUrl ->
  Js.get "value" anyValue = JBytes payload ->
  typeUrl <> "" ->
  lookupType root (typeNameOf typeUrl) = None ->
  lookupType root ("." ++ typeNameOf typeUrl) = None ->
  decodeAnyValue anyValue root
  = Returns (JObj [("@type", JStr typeUrl); ("value", JStr (Js.base64 payload))])
  /\ processResponseForAny (JObj anyValue) root
     = Returns (JObj [("@type", JStr typeUrl); ("value", JStr (Js.base64 payload))]).
Proof.
  intros Hurl Hval Hne H1 H2.
  assert (Hd : decodeAnyValue anyValue root
               = Returns (JObj [("@type", JStr typeUrl);
                                ("value", JStr (Js.base64 payload))])).
  { unfold decodeAnyValue. rewrite Hurl, Hval, (truthy_tag _ Hne).
    cbn [negb]. now rewrite (resolveType_none _ _ H1 H2). }
  split; [exact Hd|].
  rewrite response_any; [exact Hd| |]; apply get_has; congruence.
Qed.



End Generic.

End CodecFacts.

(** ** The codec on the reference runtime *)

Module CodecExamples.

Import GrpcCodec CodecSpec CodecFacts ReferenceRuntime CodecData.

Lemma unresolvable_any_degrades_to_base64_witness :
  decodeAnyValue (pb := runtime)
    [("type_url", JStr missingUrl); ("value", JBytes [x01; x02]%byte)] statusRoot
  = Returns (JObj [("@type", JStr missingUrl); ("value", JStr "AQI=")])
  /\ processResponseForAny (pb := runtime)
       (JObj [("type_url", JStr missingUrl); ("value", JBytes [x01; x02]%byte)]) statusRoot
     = Returns (JObj [("@type", JStr missingUrl); ("value", JStr "AQI=")]).
Proof.
  apply (unresolvable_any_degrades_to_base64 (pb := runtime) statusRoot
           [("type_url", JStr missingUrl); ("value", JBytes [x01; x02]%byte)]
           missingUrl [x01; x02]%byte);
    try reflexivity.
  discriminate.
Defined.

(** C2, as stated, fails on an Any value with the empty type URL: its
    type name resolves in neither form, yet the value is returned as it
    is, not as [{ "@type": "", value: "" }]. *)
Lemma unresolvable_any_degrades_to_base64_counterexample :
  let anyValue := [("type_url", JStr ""); ("value", JBytes [])] in
  lookupType (Protobuf := runtime) statusRoot (typeNameOf "") = None
  /\ lookupType (Protobuf := runtime) statusRoot ("." ++ typeNameOf "") = None
  /\ decodeAnyValue (pb := runtime) anyValue statusRoot = Returns (JObj anyValue)
  /\ decodeAnyValue (pb := runtime) anyValue statusRoot
     <> Returns (JObj [("@type", JStr ""); ("value", JStr (Js.base64 []))]).
Proof.
  repeat split; try reflexivity. discriminate.
Qed.





End CodecExamples.

(** ** The schema resolver *)

Module ResolverFacts.

Import SchemaResolver ResolverSpec.

Section Generic.

Context {pb : Protobuf}.

Lemma parseProtoFiles_seeded (files : list ProtoFile) :
  parseProtoFiles files
  = let* root := parseUserFiles files seeded in
    match resolveAll root with
    | (root', None) => Returns root'
    | (_, Some error) => Throws error
    end.
Proof. reflexivity. Qed.








End Generic.

(** *** On the reference runtime *)

Import ReferenceRuntime.








End ResolverFacts.


(** ** Client construction *)

Module ConstructionFacts.

Import GrpcClientModule ConstructionData.

Section Generic.

Context {pb : Protobuf} {hostEnv : Host}.

(** C8, amended.  When the staging directory has been created and any
    later step of the construction throws, the removal of the directory
    is the last thing done to the world, and the error that propagates is
    the one thrown by the failing step: an error of the removal itself
    is ignored.  When the removal returns, and a removal that returns
    leaves nothing at its path, the directory no longer exists once the
    error reaches the caller. *)
Theorem staging_directory_removed_on_failure
    (config : GrpcConfig) (name : string) (w w1 wf : World) (dir : string)
    (e : JsError) :
  mkdtempSync stagingPrefix w = (Returns dir, w1) ->
  construction config name dir w1 = (Throws e, wf) ->
  fst (rmSync dir wf) <> Unmodelled ->
  createGrpcClient config name w = (Throws e, snd (rmSync dir wf))
  /\ (fst (rmSync dir wf) = Returns tt ->
      (forall p w0, fst (rmSync p w0) = Returns tt ->
                    pathExists (snd (rmSync p w0)) p = false) ->
      pathExists (snd (createGrpcClient config name w)) dir = false).
Proof.
  intros Hmk Hbody Hrm.
  assert (H : createGrpcClient config name w = (Throws e, snd (rmSync dir wf))).
  { unfold createGrpcClient, seqIO at 1. rewrite Hmk.
    unfold tryCatch at 1. rewrite Hbody.
    unfold seqIO, cleanupTempDir, tryCatch, ret, throw.
    destruct (rmSync dir wf) as [[[]| |] w']; simpl in *; try reflexivity.
    now elim Hrm. }
  split; [exact H|].
  intros Hok Hlaw. rewrite H. cbn [snd]. now apply Hlaw.
Qed.

End Generic.

(** *** On the simulated host *)

Import SimHost.

Lemma rm_removes (p : string) (w0 : SimWorld) :
  fst (rm p w0) = Returns tt -> exists_ (snd (rm p w0)) p = false.
Proof.
  unfold rm. destruct (removalDenied w0); [discriminate|]. intros _.
  unfold exists_. cbn [snd paths].
  induction (SimHost.paths w0) as [|q r IH]; [reflexivity|].
  cbn [filter]. destruct (under p q) eqn:U; cbn [negb]; [exact IH|].
  cbn [existsb]. rewrite IH, orb_false_r.
  destruct (String.eqb_spec p q) as [->|]; [|reflexivity].
  unfold under in U. now rewrite String.eqb_refl in U.
Qed.

Lemma staging_directory_removed_on_failure_witness :
  thrown (fst (createGrpcClient (pb := ReferenceRuntime.runtime) (hostEnv := host)
                 config "demo.Nope" (fresh false))) = Some notFound
  /\ pathExists (Host := host)
       (snd (createGrpcClient (pb := ReferenceRuntime.runtime) (hostEnv := host)
               config "demo.Nope" (fresh false))) staging = false.
Proof.
  assert (He : thrown (fst (construction (pb := ReferenceRuntime.runtime) (hostEnv := host)
                              config "demo.Nope" staging (mkSimWorld [staging] 1 false)))
               = Some notFound) by (vm_compute; reflexivity).
  assert (Hd : removalDenied
                 (snd (construction (pb := ReferenceRuntime.runtime) (hostEnv := host)
                         config "demo.Nope" staging (mkSimWorld [staging] 1 false)))
               = false) by (vm_compute; reflexivity).
  destruct (construction (pb := ReferenceRuntime.runtime) (hostEnv := host)
              config "demo.Nope" staging (mkSimWorld [staging] 1 false))
    as [o wf] eqn:Hbody.
  cbn [fst snd] in He, Hd.
  destruct o as [a|e|]; try discriminate He. injection He as ->.
  assert (Hrm : fst (rmSync (Host := host) staging wf) = Returns tt).
  { cbn [rmSync host]. unfold rm. now rewrite Hd. }
  destruct (staging_directory_removed_on_failure (pb := ReferenceRuntime.runtime)
              (hostEnv := host) config "demo.Nope" (fresh false)
              (mkSimWorld [staging] 1 false) wf staging notFound eq_refl Hbody)
    as [H1 H2].
  - rewrite Hrm. discriminate.
  - split.
    + rewrite H1. reflexivity.
    + apply H2; [exact Hrm | exact rm_removes].
Defined.

(** C8, as stated, fails when the removal itself fails: the service is
    not found, the removal of the staging directory is denied, that
    error is ignored, and the directory is still there when the error
    reaches the caller. *)
Lemma staging_directory_removed_on_failure_counterexample :
  let outcome := createGrpcClient (pb := ReferenceRuntime.runtime) (hostEnv := host)
                   config "demo.Nope" (fresh true) in
  mkdtempSync (Host := host) (stagingPrefix (hostEnv := host)) (fresh true)
  = (Returns staging, mkSimWorld [staging] 1 true)
  /\ thrown (fst outcome) = Some notFound
  /\ pathExists (Host := host) (snd outcome) staging = true.
Proof.
  repeat split; vm_compute; reflexivity.
Qed.

End ConstructionFacts.

(** * Further properties *)

(** ** Trimming *)

Module TrimFacts.

Import JsString StringFacts.

Lemma dropWhile_fixed (p : ascii -> bool) (l : list ascii) :
  match l with [] => True | c :: _ => p c = false end -> dropWhile p l = l.
Proof. destruct l as [|c r]; simpl; [reflexivity|]. now intros ->. Qed.

Lemma dropWhile_starts (p : ascii -> bool) (l : list ascii) :
  match dropWhile p l with [] => True | c :: _ => p c = false end.
Proof.
  induction l as [|c r IH]; simpl; [exact I|].
  destruct (p c) eqn:E; [exact IH | exact E].
Qed.

Lemma dropWhile_snoc (p : ascii -> bool) (u : list ascii) (c : ascii) :
  p c = false -> dropWhile p (u ++ [c]) = dropWhile p u ++ [c].
Proof.
  intros Hc. induction u as [|x r IH]; simpl; [now rewrite Hc|].
  destruct (p x); [exact IH | reflexivity].
Qed.

Lemma dropWhile_app_keep (p : ascii -> bool) (g w : list ascii) :
  match w with [] => True | c :: _ => p c = false end ->
  dropWhile p (g ++ w) = dropWhile p g ++ w.
Proof.
  intros Hw. induction g as [|x r IH]; simpl.
  - now apply dropWhile_fixed.
  - destruct (p x); [exact IH | reflexivity].
Qed.

(** Trimming the end leaves the start as it was. *)
Lemma trimEnd_keeps_start (l : list ascii) :
  match l with [] => True | c :: _ => isWhiteSpace c = false end ->
  match trimEndChars l with [] => True | c :: _ => isWhiteSpace c = false end.
Proof.
  unfold trimEndChars. destruct l as [|c r]; [intros _; exact I|]. intros Hc.
  cbn [rev]. rewrite (dropWhile_snoc _ _ _ Hc), rev_app_distr. exact Hc.
Qed.

Lemma trimEnd_ends (l : list ascii) :
  dropWhile isWhiteSpace (rev (trimEndChars l)) = rev (trimEndChars l).
Proof.
  unfold trimEndChars. rewrite rev_involutive.
  apply dropWhile_fixed, dropWhile_starts.
Qed.

Lemma trimChars_idempotent (l : list ascii) : trimChars (trimChars l) = trimChars l.
Proof.
  unfold trimChars at 1. unfold trimStartChars.
  rewrite (dropWhile_fixed isWhiteSpace (trimChars l)).
  - unfold trimEndChars at 1. unfold trimChars.
    rewrite trimEnd_ends. apply rev_involutive.
  - unfold trimChars. apply trimEnd_keeps_start, dropWhile_starts.
Qed.

Lemma trim_idempotent (s : string) : trim (trim s) = trim s.
Proof.
  unfold trim. rewrite list_ascii_of_string_of_list_ascii.
  unfold chars, of_chars. now rewrite trimChars_idempotent.
Qed.

(** A text that ends in a word without white space still ends in it
    once trimmed. *)
Lemma trimChars_keeps_suffix (g w : list ascii) :
  w <> [] -> forallb (fun c => negb (isWhiteSpace c)) w = true ->
  exists g', trimChars (g ++ w) = g' ++ w.
Proof.
  intros Hne Hw. exists (dropWhile isWhiteSpace g).
  assert (Hhead : match w with [] => True | c :: _ => isWhiteSpace c = false end).
  { destruct w as [|c r]; [exact I|]. simpl in Hw.
    apply andb_true_iff in Hw as [Hc _]. now apply negb_true_iff in Hc. }
  assert (Hlast : match rev w with [] => True | c :: _ => isWhiteSpace c = false end).
  { destruct (rev w) as [|c r] eqn:E; [exact I|].
    assert (Hin : In c w) by (apply in_rev; rewrite E; now left).
    rewrite forallb_forall in Hw. specialize (Hw c Hin).
    now apply negb_true_iff in Hw. }
  unfold trimChars, trimStartChars, trimEndChars.
  rewrite (dropWhile_app_keep _ g w Hhead), rev_app_distr.
  rewrite dropWhile_fixed.
  - now rewrite <- rev_app_distr, rev_involutive.
  - destruct (rev w) as [|c r] eqn:E; [|exact Hlast].
    apply (f_equal (@rev ascii)) in E. rewrite rev_involutive in E. now elim Hne.
Qed.

End TrimFacts.

(** ** What a marker looks like *)

Module MarkerFacts.

Import JsString Regex ProtoParser MarkerSpec StringFacts SplitterSpec SplitterFacts TrimFacts.

Lemma greedy_inv (cls : ascii -> bool) (k : Cont) (s : list ascii) :
  forall prev pos r,
    greedy cls k prev s pos = Some r ->
    exists n prev', n <= length s /\ k prev' (skipn n s) (pos + n) = Some r.
Proof.
  induction s as [|c t IH]; intros prev pos r H.
  - exists 0, prev. simpl in *. now rewrite Nat.add_0_r.
  - cbn [greedy] in H. fold (greedy cls k) in H.
    destruct (cls c).
    + destruct (greedy cls k (Some c) t (S pos)) as [m|] eqn:E.
      * inversion H; subst. destruct (IH _ _ _ E) as (n & prev' & Hn & Hk).
        exists (S n), prev'. cbn [skipn length]. split; [lia|].
        now replace (pos + S n) with (S pos + n) by lia.
      * exists 0, prev. cbn [skipn]. rewrite Nat.add_0_r. split; [lia | exact H].
    + exists 0, prev. cbn [skipn]. rewrite Nat.add_0_r. split; [lia | exact H].
Qed.

(** An atom that is not a group bound hands over to the rest of the
    pattern, some characters further. *)
Lemma run_atom (a : Atom) (pat : Pattern) (gf gt : nat) (prev : option ascii)
    (s : list ascii) (pos : nat) (r : nat * nat * nat) :
  groupFree a = true ->
  run (a :: pat) gf gt prev s pos = Some r ->
  exists n prev', n <= length s /\ run pat gf gt prev' (skipn n s) (pos + n) = Some r.
Proof.
  intros Ha H. destruct a as [c|cls|cls| | | |]; try discriminate Ha; cbn [run] in H.
  - destruct s as [|x t]; [discriminate|]. destruct (Ascii.eqb x c); [|discriminate].
    exists 1, (Some x). cbn [skipn length]. split; [lia|].
    now replace (pos + 1) with (S pos) by lia.
  - exact (greedy_inv cls _ s prev pos r H).
  - destruct s as [|x t]; [discriminate|]. destruct (cls x); [|discriminate].
    destruct (greedy_inv cls _ t (Some x) (S pos) r H) as (n & prev' & Hn & Hk).
    exists (S n), prev'. cbn [skipn length]. split; [lia|].
    now replace (pos + S n) with (S pos + n) by lia.
  - destruct (atBol prev); [|discriminate].
    exists 0, prev. cbn [skipn]. rewrite Nat.add_0_r. split; [lia | exact H].
  - destruct (atEol s); [|discriminate].
    exists 0, prev. cbn [skipn]. rewrite Nat.add_0_r. split; [lia | exact H].
Qed.

Lemma run_groupFree (pat : Pattern) :
  forallb groupFree pat = true ->
  forall gf gt prev s pos e gf' gt',
    run pat gf gt prev s pos = Some (e, gf', gt') -> gf' = gf /\ gt' = gt.
Proof.
  induction pat as [|a pat IH]; intros Hp gf gt prev s pos e gf' gt' H.
  - cbn [run] in H. now inversion H.
  - cbn [forallb] in Hp. apply andb_true_iff in Hp as [Ha Hp].
    destruct (run_atom a pat gf gt prev s pos _ Ha H) as (n & prev' & _ & Hk).
    exact (IH Hp _ _ _ _ _ _ _ _ Hk).
Qed.

(** A literal character is there, and is consumed. *)
Lemma run_chr (c : ascii) (pat : Pattern) (gf gt : nat) (prev : option ascii)
    (s : list ascii) (pos : nat) (r : nat * nat * nat) :
  run (Chr c :: pat) gf gt prev s pos = Some r ->
  exists t, s = c :: t /\ run pat gf gt (Some c) t (S pos) = Some r.
Proof.
  cbn [run]. destruct s as [|x t]; [discriminate|].
  destruct (Ascii.eqb_spec x c) as [->|]; [|discriminate].
  intros H. now exists t.
Qed.

Lemma run_plus (cls : ascii -> bool) (pat : Pattern) (gf gt : nat)
    (prev : option ascii) (s : list ascii) (pos : nat) (r : nat * nat * nat) :
  run (Plus cls :: pat) gf gt prev s pos = Some r ->
  exists x t, s = x :: t /\ cls x = true
              /\ greedy cls (run pat gf gt) (Some x) t (S pos) = Some r.
Proof.
  cbn [run]. destruct s as [|x t]; [discriminate|].
  destruct (cls x) eqn:E; [|discriminate]. intros H. now exists x, t.
Qed.

(** The group of the delimiter expression: it starts where the matcher
    stands, holds at least one character, and then [.proto]. *)
Lemma run_nameGroup (tail : Pattern) (gf gt : nat) (prev : option ascii)
    (s : list ascii) (pos e gf' gt' : nat) :
  forallb groupFree tail = true ->
  run (nameGroup tail) gf gt prev s pos = Some (e, gf', gt') ->
  gf' = pos /\ exists g, firstn (gt' - pos) s = g ++ dotProto.
Proof.
  intros Htail H. unfold nameGroup in H. cbn [app lit map chars list_ascii_of_string] in H.
  change (run (Plus notBracketOrEquals :: map Chr dotProto ++ GroupClose :: tail)
              pos gt prev s pos = Some (e, gf', gt')) in H.
  apply run_plus in H as (x & t & -> & _ & H).
  apply greedy_inv in H as (n & prev' & Hn & H).
  cbn [dotProto chars list_ascii_of_string map app] in H.
  apply run_chr in H as (t1 & E1 & H). apply run_chr in H as (t2 & E2 & H).
  apply run_chr in H as (t3 & E3 & H). apply run_chr in H as (t4 & E4 & H).
  apply run_chr in H as (t5 & E5 & H). apply run_chr in H as (t6 & E6 & H).
  change (run tail pos (S (S (S (S (S (S (S pos + n)))))))
              (Some "o"%char) t6 (S (S (S (S (S (S (S pos + n))))))) = Some (e, gf', gt')) in H.
  apply (run_groupFree tail Htail) in H as [-> ->]. split; [reflexivity|].
  exists (x :: firstn n t).
  replace (S (S (S (S (S (S (S pos + n)))))) - pos) with (S (n + 6)) by lia.
  cbn [firstn app]. f_equal.
  rewrite <- (firstn_skipn n t) at 1.
  rewrite firstn_app, firstn_firstn, Nat.min_r by lia.
  rewrite length_firstn, Nat.min_l by lia.
  replace (n + 6 - n) with 6 by lia.
  rewrite E1, E2, E3, E4, E5, E6. reflexivity.
Qed.

Lemma delimiterRegex_parts : delimiterRegex = beforeGroup ++ nameGroup afterGroup.
Proof. reflexivity. Qed.

Lemma run_prefix (pre pat : Pattern) :
  forallb groupFree pre = true ->
  forall gf gt prev s pos r,
    run (pre ++ pat) gf gt prev s pos = Some r ->
    exists n prev', n <= length s /\ run pat gf gt prev' (skipn n s) (pos + n) = Some r.
Proof.
  induction pre as [|a pre IH]; intros Hp gf gt prev s pos r H.
  - exists 0, prev. cbn [skipn app] in *. rewrite Nat.add_0_r. split; [lia | exact H].
  - cbn [forallb] in Hp. apply andb_true_iff in Hp as [Ha Hp]. cbn [app] in H.
    destruct (run_atom a _ gf gt prev s pos r Ha H) as (n & prev' & Hn & Hk).
    destruct (IH Hp _ _ _ _ _ _ Hk) as (n2 & prev2 & Hn2 & Hk2).
    exists (n2 + n), prev2. rewrite skipn_skipn in Hk2. rewrite length_skipn in Hn2.
    split; [lia|]. now replace (pos + (n2 + n)) with (pos + n + n2) by lia.
Qed.

(** The file name of a marker found in a text ends in [.proto]. *)
Lemma marker_group (text : list ascii) (prev : option ascii) (pos : nat) (m : Match) :
  matchAt delimiterRegex prev (skipn pos text) pos = Some m ->
  exists g, sliceChars text (group_from m) (group_to m) = g ++ dotProto.
Proof.
  unfold matchAt. rewrite delimiterRegex_parts.
  destruct (run _ pos pos prev (skipn pos text) pos) as [[[e gf] gt]|] eqn:E; [|discriminate].
  intros H. inversion H; subst. cbn [group_from group_to].
  apply (run_prefix beforeGroup) in E as (n & prev' & _ & E); [|reflexivity].
  rewrite skipn_skipn in E.
  apply run_nameGroup in E as [-> [g Hg]]; [|reflexivity].
  exists g. unfold sliceChars. rewrite (Nat.add_comm n pos) in Hg. exact Hg.
Qed.

Lemma scan_matchAt (pat : Pattern) (text : list ascii) (m : Match) (s : list ascii) :
  forall prev pos skip,
    s = skipn pos text ->
    In m (scan pat prev s pos skip) ->
    exists prev', matchAt pat prev' (skipn (index m) text) (index m) = Some m.
Proof.
  assert (Hidx : forall prev0 s0 pos0 m0,
             matchAt pat prev0 s0 pos0 = Some m0 -> index m0 = pos0).
  { intros prev0 s0 pos0 m0. unfold matchAt.
    destruct (run pat pos0 pos0 prev0 s0 pos0) as [[[e gf] gt]|]; [|discriminate].
    intros H. now inversion H. }
  induction s as [|c r IH]; intros prev pos skip Hs Hin.
  - destruct skip; cbn [scan] in Hin; [|contradiction].
    destruct (matchAt pat prev [] pos) as [m0|] eqn:E; [|contradiction].
    destruct Hin as [->|[]]. exists prev.
    rewrite (Hidx _ _ _ _ E), <- Hs. exact E.
  - assert (Hr : r = skipn (S pos) text).
    { replace (S pos) with (1 + pos) by lia. now rewrite <- skipn_skipn, <- Hs. }
    destruct skip; cbn [scan] in Hin.
    + destruct (matchAt pat prev (c :: r) pos) as [m0|] eqn:E.
      * destruct Hin as [->|Hin]; [|exact (IH _ _ _ Hr Hin)].
        exists prev. rewrite (Hidx _ _ _ _ E), <- Hs. exact E.
      * exact (IH _ _ _ Hr Hin).
    + exact (IH _ _ _ Hr Hin).
Qed.

Lemma markerFiles_in (text : string) (ms : list Match) (f : ProtoFile) :
  In f (markerFiles text ms) ->
  exists m from upto,
    In m ms /\ filename f = trim (group1 text m)
    /\ content f = trim (slice text from upto) /\ truthy (content f) = true.
Proof.
  induction ms as [|m later IH]; [contradiction|].
  cbn [markerFiles]. intros Hin. apply in_app_or in Hin as [Hin|Hin].
  - destruct (truthy (trim (slice text (stop m) _))) eqn:E; [|contradiction].
    destruct Hin as [<-|[]]. do 3 eexists. cbn [filename content].
    split; [now left|]. split; [reflexivity|]. split; [reflexivity | exact E].
  - destruct (IH Hin) as (m' & from & upto & Hm & H).
    exists m', from, upto. split; [now right | exact H].
Qed.

Lemma of_chars_app (a b : list ascii) :
  of_chars (a ++ b) = (of_chars a ++ of_chars b)%string.
Proof. induction a as [|c r IH]; simpl; [reflexivity | now rewrite <- IH]. Qed.

(** X1.  Every file the splitter returns has a name that ends in
    [.proto] and a content that is not empty and carries no white space
    at either end. *)
Theorem split_files_are_named_and_filled (text : string) (f : ProtoFile) :
  In f (parseDelimitedProtoContent text) ->
  (exists stem, filename f = (stem ++ ".proto")%string)
  /\ content f <> "" /\ trim (content f) = content f.
Proof.
  unfold parseDelimitedProtoContent.
  destruct (negb (truthy text) || negb (truthy (trim text))) eqn:Hb; [contradiction|].
  apply orb_false_iff in Hb as [_ Ht]. apply negb_false_iff in Ht.
  destruct (matchAll delimiterRegex text) as [|m0 ms0] eqn:Hm.
  - cbn [length Nat.eqb]. intros [<-|[]]. cbn [filename content].
    split; [now exists "main"|]. split; [now apply truthy_true | apply trim_idempotent].
  - cbn [length Nat.eqb]. intros Hin.
    assert (Hf : In f (markerFiles text (matchAll delimiterRegex text))).
    { rewrite Hm. pose proof (loop_markerFiles text (m0 :: ms0) [] []) as Hl.
      cbn [app length] in Hl. now rewrite <- Hl. }
    apply markerFiles_in in Hf as (m & from & upto & Hmem & Hname & Hcont & Hfull).
    split; [|split].
    + destruct (scan_matchAt delimiterRegex (chars text) m _ None 0 0 eq_refl Hmem)
        as [prev Hat].
      destruct (marker_group _ _ _ _ Hat) as [g Hg].
      destruct (trimChars_keeps_suffix g dotProto) as [g' Hg']; [discriminate | reflexivity |].
      exists (of_chars g'). rewrite Hname. unfold trim, group1, slice.
      unfold chars at 1, of_chars at 2. rewrite list_ascii_of_string_of_list_ascii.
      fold (chars text). rewrite Hg, Hg'. apply of_chars_app.
    + now apply truthy_true.
    + rewrite Hcont. apply trim_idempotent.
Qed.

Lemma split_files_are_named_and_filled_witness :
  (exists stem, "b.proto" = (stem ++ ".proto")%string)
  /\ "Y" <> "" /\ trim "Y" = "Y".
Proof.
  apply (split_files_are_named_and_filled twoFiles (mkProtoFile "b.proto" "Y")).
  vm_compute. right. now left.
Defined.

End MarkerFacts.

(** ** Metadata keys and values *)

Module MetadataInvariants.

Import JsString GrpcCodec StringFacts MetadataSpec MetadataFacts TrimFacts.

Lemma lowerChar_idempotent (c : ascii) : lowerChar (lowerChar c) = lowerChar c.
Proof.
  destruct c as [[] [] [] [] [] [] [] []]; reflexivity.
Qed.

Lemma lowerChar_whitespace (c : ascii) : isWhiteSpace (lowerChar c) = isWhiteSpace c.
Proof.
  destruct c as [[] [] [] [] [] [] [] []]; reflexivity.
Qed.

Lemma dropWhile_lower (l : list ascii) :
  dropWhile isWhiteSpace (map lowerChar l) = map lowerChar (dropWhile isWhiteSpace l).
Proof.
  induction l as [|c r IH]; simpl; [reflexivity|].
  rewrite lowerChar_whitespace. destruct (isWhiteSpace c); [exact IH | reflexivity].
Qed.

Lemma trimChars_lower (l : list ascii) :
  trimChars (map lowerChar l) = map lowerChar (trimChars l).
Proof.
  unfold trimChars, trimStartChars, trimEndChars.
  now rewrite dropWhile_lower, <- map_rev, dropWhile_lower, map_rev.
Qed.

Lemma chars_of (l : list ascii) : chars (of_chars l) = l.
Proof. apply list_ascii_of_string_of_list_ascii. Qed.

Lemma toLowerCase_idempotent (s : string) : toLowerCase (toLowerCase s) = toLowerCase s.
Proof.
  unfold toLowerCase. rewrite chars_of, map_map. f_equal.
  apply map_ext. intros c. apply lowerChar_idempotent.
Qed.

Lemma trim_toLowerCase (s : string) : trim (toLowerCase s) = toLowerCase (trim s).
Proof.
  unfold trim, toLowerCase. now rewrite !chars_of, trimChars_lower.
Qed.

Lemma toLowerCase_truthy (s : string) : truthy (toLowerCase s) = truthy s.
Proof. destruct s; reflexivity. Qed.

Lemma sent_clean (entries : list MetadataEntry) (k v : string) :
  In (k, v) (map sent (filter kept entries)) ->
  k <> "" /\ v <> "" /\ toLowerCase k = k /\ trim k = k /\ trim v = v.
Proof.
  intros Hin. apply in_map_iff in Hin as (e & He & Hin).
  apply filter_In in Hin as [_ Hk]. unfold kept in Hk.
  apply andb_true_iff in Hk as [Hk Hv]. unfold sent in He. inversion He; subst.
  repeat split.
  - apply truthy_true. now rewrite toLowerCase_truthy.
  - now apply truthy_true.
  - apply toLowerCase_idempotent.
  - now rewrite trim_toLowerCase, trim_idempotent.
  - apply trim_idempotent.
Qed.

Lemma firstRefused_in {lib : GrpcMetadata} (headers : list (string * string))
    (e : JsError) :
  firstRefused headers = Some e ->
  exists k v, In (k, v) headers /\ validate k v = Some e.
Proof.
  induction headers as [|[k v] rest IH]; cbn [firstRefused]; [discriminate|].
  destruct (validate k v) as [e'|] eqn:Hv.
  - intros [= <-]. exists k, v. split; [now left | exact Hv].
  - intros H. destruct (IH H) as (k' & v' & Hin & Hv'). exists k', v'.
    split; [now right | exact Hv'].
Qed.

(** X2.  Every header [createMetadata] hands to the transport has a key
    and a value that are not empty and carry no white space at either
    end, and its key is in lower case: the headers of the metadata it
    returns, and the header [Metadata.add] refuses when it throws. *)
Theorem metadata_headers_are_clean {lib : GrpcMetadata} (entries : list MetadataEntry) :
  (forall transmitted k v,
     createMetadata entries = Returns transmitted ->
     In (k, v) transmitted ->
     k <> "" /\ v <> "" /\ toLowerCase k = k /\ trim k = k /\ trim v = v)
  /\ (forall e,
        createMetadata entries = Throws e ->
        exists k v,
          validate k v = Some e
          /\ k <> "" /\ v <> "" /\ toLowerCase k = k /\ trim k = k /\ trim v = v).
Proof.
  unfold createMetadata. rewrite addEntries_kept. cbn [app Metadata.empty]. split.
  - intros transmitted k v H Hin.
    destruct (firstRefused (map sent (filter kept entries))); [discriminate|].
    inversion H; subst. now apply (sent_clean entries).
  - intros e H.
    destruct (firstRefused (map sent (filter kept entries))) as [e'|] eqn:Hf;
      [|discriminate].
    inversion H; subst. destruct (firstRefused_in _ _ Hf) as (k & v & Hin & Hv).
    exists k, v. split; [exact Hv | now apply (sent_clean entries)].
Qed.

Lemma metadata_headers_are_clean_witness :
  "x-api-key" <> "" /\ "k 1" <> "" /\ toLowerCase "x-api-key" = "x-api-key"
  /\ trim "x-api-key" = "x-api-key" /\ trim "k 1" = "k 1".
Proof.
  apply (proj1 (metadata_headers_are_clean (lib := ReferenceMetadata.rules)
                  [mkMetadataEntry None (Some "v");
                   mkMetadataEntry (Some " X-Api-Key ") (Some "  k 1 ")])
           [("x-api-key", "k 1")]).
  - reflexivity.
  - now left.
Defined.

End MetadataInvariants.

(** ** The two walks *)

Module WalkFacts.

Import GrpcCodec StringFacts CodecSpec CodecFacts WalkSpec.

(** Induction on a value, with the items of an array and the values of
    an object as smaller values. *)
Lemma JsValue_nested_ind (P : JsValue -> Prop) :
  P JUndefined -> P JNull -> (forall b, P (JBool b)) -> (forall n, P (JNum n)) ->
  (forall s, P (JStr s)) -> (forall b, P (JBytes b)) ->
  (forall items, Forall P items -> P (JArr items)) ->
  (forall record, Forall (fun kv => P (snd kv)) record -> P (JObj record)) ->
  forall v, P v.
Proof.
  intros Hu Hn Hb Hz Hs Hy Ha Ho.
  exact (fix go (v : JsValue) : P v :=
           match v with
           | JUndefined => Hu
           | JNull => Hn
           | JBool b => Hb b
           | JNum n => Hz n
           | JStr s => Hs s
           | JBytes b => Hy b
           | JArr items =>
               Ha items
                 ((fix all (l : list JsValue) : Forall P l :=
                     match l with
                     | [] => Forall_nil P
                     | x :: r => Forall_cons x (go x) (all r)
                     end) items)
           | JObj record =>
               Ho record
                 ((fix all (l : Props) : Forall (fun kv => P (snd kv)) l :=
                     match l with
                     | [] => Forall_nil _
                     | (k, x) :: r =>
                         Forall_cons (P := fun kv => P (snd kv)) (k, x) (go x) (all r)
                     end) record)
           end).
Qed.


Section Generic.

Context {pb : Protobuf}.

Lemma response_array (root : Root) (items : list JsValue) :
  processResponseForAny (JArr items) root
  = let* mapped := mapResponse root items in Returns (JArr mapped).
Proof.
  cbn [processResponseForAny]. f_equal.
  induction items as [|x r IH]; [reflexivity|].
  cbn [mapResponse]. now rewrite <- IH.
Qed.

Lemma response_object (root : Root) (record : Props) :
  processResponseForAny (JObj record) root
  = if Js.has "type_url" record && Js.has "value" record
    then decodeAnyValue record root
    else let* result := fieldsResponse root record [] in Returns (JObj result).
Proof.
  cbn [processResponseForAny].
  destruct (Js.has "type_url" record && Js.has "value" record); [reflexivity|].
  f_equal. generalize (@nil (string * JsValue)).
  induction record as [|[k v] r IH]; intros acc; [reflexivity|].
  cbn [fieldsResponse]. destruct (processResponseForAny v root); try reflexivity.
  cbn [bind]. apply IH.
Qed.





Lemma forallb_fields (p : JsValue -> bool) (P : JsValue -> Prop) (record : Props) :
  Forall (fun kv => p (snd kv) = true -> P (snd kv)) record ->
  forallb (fun kv => match kv with (_, x) => p x end) record = true ->
  Forall (fun kv => P (snd kv)) record.
Proof.
  induction record as [|[k x] r IH]; intros Hall Hb; constructor.
  - inversion Hall; subst. cbn [forallb] in Hb.
    apply andb_true_iff in Hb as [Hx _]. auto.
  - inversion Hall; subst. cbn [forallb] in Hb.
    apply andb_true_iff in Hb as [_ Hr]. auto.
Qed.

Lemma forallb_items (p : JsValue -> bool) (P : JsValue -> Prop) (items : list JsValue) :
  Forall (fun x => p x = true -> P x) items ->
  forallb p items = true -> Forall P items.
Proof.
  induction items as [|x r IH]; intros Hall Hb; constructor.
  - inversion Hall; subst. cbn [forallb] in Hb.
    apply andb_true_iff in Hb as [Hx _]. auto.
  - inversion Hall; subst. cbn [forallb] in Hb.
    apply andb_true_iff in Hb as [_ Hr]. auto.
Qed.







(** X5.  Decoding an Any value whose [type_url] is a string and whose
    payload is a buffer never throws, whatever protobufjs does.  When
    the type resolves and the payload does not decode, the value
    degrades to [{ "@type": typeUrl, value: base64(payload) }]. *)
Theorem decoding_never_throws
  (root : Root) (anyValue : Props) (typeUrl : string) (payload : list byte) :
  Js.get "type_url" anyValue = JStr typeUrl ->
  Js.get "value" anyValue = JBytes payload ->
  (forall e, decodeAnyValue anyValue root <> Throws e)
  /\ (forall t e,
        typeUrl <> "" ->
        resolveType root (typeNameOf typeUrl) = Some t ->
        decode t payload = Throws e ->
        decodeAnyValue anyValue root
        = Returns (JObj [("@type", JStr typeUrl); ("value", JStr (Js.base64 payload))])).
Proof.
  intros Hurl Hval. split.
  - intros e. unfold decodeAnyValue. rewrite Hurl, Hval.
    destruct (negb (Js.truthy (JStr typeUrl))); [discriminate|].
    destruct (resolveType root (typeNameOf typeUrl)) as [t|]; [|discriminate].
    cbn [Js.truthy].
    destruct (decode t payload) as [m| |]; cbn [bind]; try discriminate.
    destruct (toObject t m decodeOptions); discriminate.
  - intros t e Hne Hres Hdec. unfold decodeAnyValue.
    rewrite Hurl, Hval, (truthy_tag _ Hne), Hres. cbn [negb Js.truthy].
    now rewrite Hdec.
Qed.

(** X6.  What the encoder returns for an object tagged with a non-empty
    [@type] string is always the two-key wire object: the tag under
    [type_url], and under [value] the bytes protobufjs serialises from
    the other fields, the [@type] key left out.  When [verify] reports a
    problem, encoding throws [Invalid message structure: <problem>]. *)
Theorem encoding_returns_the_wire_object
  (root : Root) (x : Props) (typeUrl : string) :
  Js.get "@type" x = JStr typeUrl ->
  typeUrl <> "" ->
  (forall v,
     encodeAnyValue x root = Returns v ->
     exists t m wire,
       resolveType root (typeNameOf typeUrl) = Some t
       /\ create t (Js.omit "@type" x) = Returns m
       /\ encode t m = Returns wire
       /\ v = JObj [("type_url", JStr typeUrl); ("value", JBytes wire)])
  /\ (forall t problem,
        resolveType root (typeNameOf typeUrl) = Some t ->
        verify t (Js.omit "@type" x) = Returns (Some problem) ->
        problem <> "" ->
        encodeAnyValue x root
        = Throws (Error ("Invalid message structure: " ++ problem))).
Proof.
  intros Htag Hne. split.
  - intros v. unfold encodeAnyValue. rewrite Htag, (truthy_tag _ Hne). cbn [negb].
    destruct (resolveType root (typeNameOf typeUrl)) as [t|]; [|discriminate].
    destruct (verify t (Js.omit "@type" x)) as [[msg|]| |]; cbn [bind]; try discriminate.
    + destruct (JsString.truthy msg); [discriminate|].
      destruct (create t (Js.omit "@type" x)) as [m| |] eqn:Ec; cbn [bind]; try discriminate.
      destruct (encode t m) as [wire| |] eqn:Ee; cbn [bind]; try discriminate.
      intros H. inversion H. now exists t, m, wire.
    + destruct (create t (Js.omit "@type" x)) as [m| |] eqn:Ec; cbn [bind]; try discriminate.
      destruct (encode t m) as [wire| |] eqn:Ee; cbn [bind]; try discriminate.
      intros H. inversion H. now exists t, m, wire.
  - intros t problem Hres Hv Hp. unfold encodeAnyValue.
    rewrite Htag, (truthy_tag _ Hne), Hres, Hv. cbn [negb bind].
    apply truthy_true in Hp. now rewrite Hp.
Qed.

Lemma items_never_throw (walk : JsValue -> Outcome JsValue)
    (loop : list JsValue -> Outcome (list JsValue)) :
  loop [] = Returns [] ->
  (forall x rest, loop (x :: rest)
                  = let* y := walk x in let* ys := loop rest in Returns (y :: ys)) ->
  forall items, Forall (fun x => forall e, walk x <> Throws e) items ->
                forall e, loop items <> Throws e.
Proof.
  intros Hnil Hcons. induction items as [|x rest IH]; intros Hall e.
  - now rewrite Hnil.
  - inversion Hall as [|? ? Hx Hrest]; subst. rewrite Hcons.
    destruct (walk x) as [y|e'|] eqn:Ex; cbn [bind]; [|now destruct (Hx e')|discriminate].
    specialize (IH Hrest). destruct (loop rest) as [ys|e'|]; cbn [bind];
      [discriminate|now destruct (IH e')|discriminate].
Qed.

Lemma fields_never_throw (walk : JsValue -> Outcome JsValue)
    (loop : Props -> Props -> Outcome Props) :
  (forall acc, loop [] acc = Returns acc) ->
  (forall k v rest acc, loop ((k, v) :: rest) acc
                        = let* v' := walk v in loop rest (Js.assign k v' acc)) ->
  forall record, Forall (fun kv => forall e, walk (snd kv) <> Throws e) record ->
                 forall acc e, loop record acc <> Throws e.
Proof.
  intros Hnil Hcons. induction record as [|[k v] rest IH]; intros Hall acc e.
  - now rewrite Hnil.
  - inversion Hall as [|? ? Hv Hrest]; subst. cbn [snd] in Hv. rewrite Hcons.
    destruct (walk v) as [v'|e'|] eqn:Ev; cbn [bind];
      [now apply IH|now destruct (Hv e')|discriminate].
Qed.

(** An Any value whose [type_url] is a string is never the reason for
    an exception. *)
Lemma decode_string_url (root : Root) (anyValue : Props) (typeUrl : string) :
  Js.get "type_url" anyValue = JStr typeUrl ->
  forall e, decodeAnyValue anyValue root <> Throws e.
Proof.
  intros Hurl e. unfold decodeAnyValue. rewrite Hurl.
  assert (Hfb : forall p, fallbackAny typeUrl p <> Throws e).
  { intros p. unfold fallbackAny, base64OrNull.
    destruct (Js.truthy p); [destruct p|]; discriminate. }
  destruct (negb (Js.truthy (JStr typeUrl))); [discriminate|].
  destruct (resolveType root (typeNameOf typeUrl)) as [t|]; [|apply Hfb].
  destruct (Js.truthy (Js.get "value" anyValue)); [|apply Hfb].
  destruct (Js.get "value" anyValue) as [ | | | | | payload | | ]; try discriminate.
  destruct (decode t payload) as [m| |]; cbn [bind]; [|apply Hfb|discriminate].
  destruct (toObject t m decodeOptions); [discriminate|apply Hfb|discriminate].
Qed.

Lemma wire_response_never_throws (root : Root) (v : JsValue) :
  wireShaped v = true -> forall e, processResponseForAny v root <> Throws e.
Proof.
  induction v as [ | | b | n | s | b | items IH | record IH] using JsValue_nested_ind;
    intros H e; try discriminate.
  - rewrite response_array. cbn [wireShaped] in H.
    pose proof (items_never_throw (fun x => processResponseForAny x root)
                  (mapResponse root) eq_refl (fun _ _ => eq_refl) items
                  (forallb_items wireShaped
                     (fun x => forall e, processResponseForAny x root <> Throws e)
                     items IH H)) as Hl.
    destruct (mapResponse root items) as [ys|e'|]; cbn [bind];
      [discriminate|now destruct (Hl e')|discriminate].
  - rewrite response_object. cbn [wireShaped] in H.
    destruct (Js.has "type_url" record && Js.has "value" record).
    + destruct (Js.get "type_url" record) as [ | | | | typeUrl | | | ] eqn:Hurl;
        try discriminate H.
      now apply (decode_string_url root record typeUrl).
    + pose proof (fields_never_throw (fun x => processResponseForAny x root)
                    (fieldsResponse root) (fun _ => eq_refl) (fun _ _ _ _ => eq_refl)
                    record
                    (forallb_fields wireShaped
                       (fun x => forall e, processResponseForAny x root <> Throws e)
                       record IH H) []) as Hl.
      destruct (fieldsResponse root record []) as [out|e'|]; cbn [bind];
        [discriminate|now destruct (Hl e')|discriminate].
Qed.

End Generic.

End WalkFacts.

Module WalkExamples.

Import GrpcCodec CodecSpec CodecFacts WalkSpec WalkData WalkFacts ReferenceRuntime CodecData.



Lemma decoding_never_throws_witness :
  let anyValue := [("type_url", JStr statusUrl); ("value", JBytes [x08]%byte)] in
  (forall e, decodeAnyValue (pb := runtime) anyValue statusRoot <> Throws e)
  /\ decodeAnyValue (pb := runtime) anyValue statusRoot
     = Returns (JObj [("@type", JStr statusUrl); ("value", JStr "CA==")]).
Proof.
  intros anyValue.
  destruct (refLookupType statusRoot "common.Status") as [t|] eqn:Ht;
    [|discriminate Ht].
  destruct (decoding_never_throws (pb := runtime) statusRoot anyValue statusUrl
              [x08]%byte eq_refl eq_refl) as [Hnever Hfallback].
  split; [exact Hnever|].
  apply (Hfallback t outOfRange).
  - discriminate.
  - exact Ht.
  - injection Ht as <-. reflexivity.
Defined.

Lemma encoding_returns_the_wire_object_witness :
  (exists (t : Decl) (m : Props) (wire : list byte),
     resolveType (pb := runtime) statusRoot (typeNameOf statusUrl) = Some t
     /\ create (Protobuf := runtime) t (Js.omit "@type" fullStatus) = Returns m
     /\ encode (Protobuf := runtime) t m = Returns wire
     /\ JObj [("type_url", JStr statusUrl);
              ("value", JBytes [x08; xfe; xff; xff; xff; xff; xff; xff; xff; xff; x01;
                                x12; x02; x68; x69; x18; x01]%byte)]
        = JObj [("type_url", JStr statusUrl); ("value", JBytes wire)])
  /\ encodeAnyValue (pb := runtime)
       [("@type", JStr statusUrl); ("code", JStr "five")] statusRoot
     = Throws (Error "Invalid message structure: code: integer expected").
Proof.
  destruct (refLookupType statusRoot "common.Status") as [t|] eqn:Ht;
    [|discriminate Ht].
  split.
  - destruct (encoding_returns_the_wire_object (pb := runtime) statusRoot fullStatus
                statusUrl eq_refl) as [Hshape _]; [discriminate|].
    apply Hshape. reflexivity.
  - destruct (encoding_returns_the_wire_object (pb := runtime) statusRoot
                [("@type", JStr statusUrl); ("code", JStr "five")]
                statusUrl eq_refl) as [_ Hinvalid]; [discriminate|].
    apply (Hinvalid t).
    + exact Ht.
    + injection Ht as <-. reflexivity.
    + discriminate.
Defined.

End WalkExamples.

(** ** Server streaming *)

Module StreamFacts.

Import GrpcCodec GrpcClientModule ReferenceRuntime CodecSpec CodecFacts.
Import WalkSpec WalkFacts StreamSpec.

Section Generic.

Context {pb : Protobuf} {lib : GrpcMetadata}.






End Generic.

(** *** On the reference runtime *)


(** The same call on [Fail]: the message already received is not
    returned. *)
Example failing_stream_is_rejected :
  invokeServerStreaming (lib := ReferenceMetadata.rules) watching "Fail" (tick 0) []
    (mkGrpcCallOptions None) 1000
  = Rejected (Error "gRPC stream error (14): unavailable").
Proof. reflexivity. Qed.

End StreamFacts.


(** ** Buffers and type URLs *)

Module TagFacts.

Import GrpcCodec StringFacts CodecFacts TagSpec.

Lemma natToString_injective (i j : nat) :
  Js.natToString i = Js.natToString j -> i = j.
Proof.
  unfold Js.natToString. intros H.
  assert (Hu : Nat.to_uint i = Nat.to_uint j).
  { apply (f_equal NilEmpty.uint_of_string) in H.
    rewrite !NilEmpty.usu in H. now inversion H. }
  apply (f_equal Nat.of_uint) in Hu. now rewrite !DecimalNat.Unsigned.of_to in Hu.
Qed.

Lemma bufferEntries_keys (b : list byte) :
  map fst (Js.bufferEntries b) = map Js.natToString (seq 0 (length b)).
Proof.
  unfold Js.bufferEntries. rewrite map_map. cbn [fst].
  rewrite <- (map_map fst Js.natToString). f_equal.
  generalize 0. induction b as [|x r IH]; intros n; [reflexivity|].
  cbn [length seq combine map fst]. now rewrite IH.
Qed.

Lemma bufferEntries_values (b : list byte) :
  map snd (Js.bufferEntries b) = map (fun x => JNum (Z.of_N (Byte.to_N x))) b.
Proof.
  unfold Js.bufferEntries. rewrite map_map. cbn [snd].
  rewrite <- (map_map snd (fun x => JNum (Z.of_N (Byte.to_N x)))). f_equal.
  generalize 0. induction b as [|x r IH]; intros n; [reflexivity|].
  cbn [length seq combine map snd]. now rewrite IH.
Qed.

Lemma bufferEntries_wellFormed (b : list byte) : Js.wellFormed (Js.bufferEntries b).
Proof.
  unfold Js.wellFormed. rewrite bufferEntries_keys.
  generalize (seq_NoDup (length b) 0).
  induction 1 as [|i l Hi Hl IH]; cbn [map]; constructor; [|exact IH].
  intros Hin. apply in_map_iff in Hin as (j & Hj & Hin).
  apply natToString_injective in Hj. now subst.
Qed.

Lemma natToString_index (i : nat) : Js.natToString i <> "__proto__".
Proof.
  unfold Js.natToString. intros H.
  apply (f_equal NilEmpty.uint_of_string) in H. rewrite NilEmpty.usu in H.
  discriminate H.
Qed.

Lemma bufferEntries_indices (b : list byte) :
  Forall (fun kv => fst kv <> "__proto__") (Js.bufferEntries b).
Proof.
  unfold Js.bufferEntries. apply Forall_forall. intros kv Hin.
  apply in_map_iff in Hin as (ib & <- & _). apply natToString_index.
Qed.

Lemma assign_indices (l acc : Props) :
  Forall (fun kv => fst kv <> "__proto__") l ->
  fold_left (fun o kv => Js.assign (fst kv) (snd kv) o) l acc
  = fold_left (fun o kv => Js.set (fst kv) (snd kv) o) l acc.
Proof.
  intros H. revert acc. induction H as [|kv r Hk _ IH]; intros acc; [reflexivity|].
  cbn [fold_left]. unfold Js.assign at 2. apply String.eqb_neq in Hk.
  rewrite Hk. apply IH.
Qed.

Lemma lastSegment_slashless (l : list ascii) :
  forallb (fun c => negb (Ascii.eqb "/" c)) l = true ->
  existsb (Ascii.eqb "/") l = false /\ JsString.lastSegmentChars "/" l = l.
Proof.
  intros H.
  assert (He : existsb (Ascii.eqb "/") l = false).
  { induction l as [|c r IH]; [reflexivity|].
    cbn [forallb] in H. apply andb_true_iff in H as [Hc Hr].
    apply negb_true_iff in Hc. cbn [existsb]. now rewrite Hc, (IH Hr). }
  split; [exact He|]. destruct l as [|c r]; [reflexivity|].
  cbn [JsString.lastSegmentChars]. now rewrite He.
Qed.

Lemma lastSegment_after (a l : list ascii) :
  forallb (fun c => negb (Ascii.eqb "/" c)) l = true ->
  existsb (Ascii.eqb "/") (a ++ "/"%char :: l) = true
  /\ JsString.lastSegmentChars "/" (a ++ "/"%char :: l) = l.
Proof.
  intros H. destruct (lastSegment_slashless l H) as [He Hl].
  assert (Hex : forall a', existsb (Ascii.eqb "/") (a' ++ "/"%char :: l) = true).
  { intros a'. rewrite existsb_app. cbn [existsb]. rewrite Ascii.eqb_refl.
    now rewrite orb_true_r. }
  split; [apply Hex|].
  induction a as [|c r IH].
  - pose proof (Hex []) as H0. cbn [app] in H0.
    cbn [app JsString.lastSegmentChars]. rewrite H0. exact Hl.
  - pose proof (Hex (c :: r)) as H0. cbn [app] in H0.
    cbn [app JsString.lastSegmentChars]. rewrite H0. exact IH.
Qed.

Lemma typeNameOf_slashless (name : string) :
  slashless name = true -> typeNameOf name = name.
Proof.
  intros H. unfold typeNameOf, JsString.includesChar.
  now rewrite (proj1 (lastSegment_slashless _ H)).
Qed.

Lemma typeNameOf_after (host name : string) :
  slashless name = true -> typeNameOf (host ++ "/" ++ name) = name.
Proof.
  intros H. unfold typeNameOf, JsString.includesChar, JsString.splitPop.
  assert (Hc : JsString.chars (host ++ "/" ++ name)
               = JsString.chars host ++ "/"%char :: JsString.chars name).
  { induction host as [|c r IH]; [reflexivity|]. simpl. now rewrite <- IH. }
  rewrite Hc. destruct (lastSegment_after (JsString.chars host) _ H) as [-> ->].
  apply string_of_list_ascii_of_string.
Qed.

Section Generic.

Context {pb : Protobuf}.

(** X7.  A buffer that is not the payload of an Any value does not
    come back as a buffer: both walks rebuild it as a plain object that
    holds each byte, as a number, under its index written in decimal,
    in order.  A [bytes] field of a response is returned in that
    form, under the key of the field; under the key [__proto__] it
    would be assigned to the prototype and leave no property. *)
Theorem buffers_come_back_as_index_objects (root : Root) (b : list byte) :
  processResponseForAny (JBytes b) root = Returns (JObj (Js.bufferEntries b))
  /\ processRequestForAny (JBytes b) root = Returns (JObj (Js.bufferEntries b))
  /\ map fst (Js.bufferEntries b) = map Js.natToString (seq 0 (length b))
  /\ map snd (Js.bufferEntries b) = map (fun x => JNum (Z.of_N (Byte.to_N x))) b
  /\ forall k : string,
       processResponseForAny (JObj [(k, JBytes b)]) root
       = Returns (JObj (if String.eqb k "__proto__" then []
                        else [(k, JObj (Js.bufferEntries b))])).
Proof.
  assert (Hfold : fold_left (fun o kv => Js.assign (fst kv) (snd kv) o)
                    (Js.bufferEntries b) []
                  = Js.bufferEntries b).
  { rewrite assign_indices by apply bufferEntries_indices.
    apply (spread_fresh (Js.bufferEntries b) []). apply bufferEntries_wellFormed. }
  assert (Hwalk : processResponseForAny (JBytes b) root
                  = Returns (JObj (Js.bufferEntries b))).
  { cbn [processResponseForAny]. now rewrite Hfold. }
  split; [exact Hwalk|]. split; [cbn [processRequestForAny]; now rewrite Hfold|].
  split; [apply bufferEntries_keys|]. split.
  - apply bufferEntries_values.
  - intros k. rewrite WalkFacts.response_object.
    unfold Js.has. cbn [existsb fst orb].
    destruct (String.eqb k "type_url" && String.eqb k "value") eqn:E.
    + apply andb_true_iff in E as [E1 E2].
      apply String.eqb_eq in E1. apply String.eqb_eq in E2. congruence.
    + rewrite !orb_false_r, E. cbn [WalkSpec.fieldsResponse]. rewrite Hwalk.
      cbn [bind]. unfold Js.assign. now destruct (String.eqb k "__proto__").
Qed.

(** X8.  The type of a tagged object is chosen by what follows the
    last slash of its tag, and by nothing else: the type name of
    [host/name] is [name], as is the type name of the bare [name], and
    encoding the same fields under either tag has the same outcome, the
    same bytes or the same error, up to the [type_url] of the wire
    object, which is the tag as it was given. *)
Theorem type_is_chosen_by_the_last_segment
    (root : Root) (host name : string) (fields : Props) :
  slashless name = true ->
  name <> "" ->
  typeNameOf (host ++ "/" ++ name) = name
  /\ typeNameOf name = name
  /\ encodeAnyValue (("@type", JStr (host ++ "/" ++ name)) :: fields) root
     = retagged (host ++ "/" ++ name)
         (encodeAnyValue (("@type", JStr name) :: fields) root).
Proof.
  intros Hs Hne. split; [now apply typeNameOf_after|].
  split; [now apply typeNameOf_slashless|].
  unfold encodeAnyValue. cbn [Js.get]. rewrite !String.eqb_refl.
  rewrite (typeNameOf_after host name Hs), (typeNameOf_slashless name Hs).
  rewrite (truthy_tag name Hne).
  assert (Hhost : Js.truthy (JStr (host ++ "/" ++ name)) = true).
  { apply truthy_tag. destruct host; discriminate. }
  rewrite Hhost. cbn [negb].
  unfold Js.omit. cbn [filter fst]. rewrite String.eqb_refl. cbn [negb].
  destruct (resolveType root name) as [t|]; [|reflexivity].
  set (messageFields := filter _ fields).
  assert (Hbuild : forall u,
             (let* message := create t messageFields in
              let* encoded := encode t message in
              Returns (JObj [("type_url", JStr u); ("value", JBytes encoded)]))
             = retagged u
                 (let* message := create t messageFields in
                  let* encoded := encode t message in
                  Returns (JObj [("type_url", JStr name); ("value", JBytes encoded)]))).
  { intros u. destruct (create t messageFields) as [m| |]; try reflexivity.
    cbn [bind]. destruct (encode t m); reflexivity. }
  destruct (verify t messageFields) as [[msg|]| |]; cbn [bind]; try reflexivity.
  - destruct (JsString.truthy msg); [reflexivity | apply Hbuild].
  - apply Hbuild.
Qed.

End Generic.

(** *** On the reference runtime *)

Import ReferenceRuntime.

Lemma type_is_chosen_by_the_last_segment_witness :
  typeNameOf "type.googleapis.com/common.Status" = "common.Status"
  /\ typeNameOf "common.Status" = "common.Status"
  /\ encodeAnyValue (pb := runtime)
       [("@type", JStr "type.googleapis.com/common.Status"); ("code", JNum 5)] statusRoot
     = retagged "type.googleapis.com/common.Status"
         (encodeAnyValue (pb := runtime)
            [("@type", JStr "common.Status"); ("code", JNum 5)] statusRoot).
Proof.
  apply (type_is_chosen_by_the_last_segment (pb := runtime) statusRoot
           "type.googleapis.com" "common.Status" [("code", JNum 5)]).
  - reflexivity.
  - discriminate.
Defined.

End TagFacts.

(** ** Calls *)

Module CallFacts.

Import GrpcCodec GrpcClientModule GrpcClientMethods StreamSpec.
Import CodecSpec CodecFacts WalkSpec WalkFacts CallSpec.

Section Generic.

Context {pb : Protobuf} {lib : GrpcMetadata}.

(** X9.  A request that does not encode never reaches the transport:
    when the request walk throws at a tagged object, every request from
    which the walk reaches that object gives a call that never resolves,
    and whose outcome is the same whatever client the wrapper holds. *)
Theorem unencodable_request_never_reaches_the_transport
    (rt : Root) (x : Props) (e : JsError) (request : JsValue)
    (service dir methodName : string) (entries : list MetadataEntry)
    (options : GrpcCallOptions) (now : Z) :
  processRequestForAny (JObj x) rt = Throws e ->
  Reaches x request ->
  forall (c c' : GrpcClient) (members members' : string -> option UnaryMember),
    invokeServerStreaming (mkWrapper c rt service dir) methodName request entries options now
    = invokeServerStreaming (mkWrapper c' rt service dir) methodName request entries options now
    /\ invokeUnary (mkWrapper c rt service dir) members methodName request entries options now
       = invokeUnary (mkWrapper c' rt service dir) members' methodName request entries
           options now
    /\ (forall rows,
          invokeServerStreaming (mkWrapper c rt service dir) methodName request entries
            options now <> Resolved rows)
    /\ (forall v,
          invokeUnary (mkWrapper c rt service dir) members methodName request entries
            options now <> UResolved v).
Proof.
  intros Hx Hr c c' members members'.
  pose proof (failure_reaches_the_top rt x e Hx request Hr) as Hnever.
  unfold invokeServerStreaming, invokeUnary. cbn [root].
  destruct (createMetadata entries) as [grpcMetadata| |];
    [|repeat split; discriminate..].
  destruct (processRequestForAny request rt) as [v| |].
  - now elim (Hnever v).
  - repeat split; discriminate.
  - repeat split; discriminate.
Qed.

Lemma deliver_never_throws (rt : Root) (events : list StreamEvent) :
  wireEvents events = true ->
  forall st e, deliver rt events st <> Throws e.
Proof.
  induction events as [|ev rest IH]; intros H st e; [discriminate|].
  cbn [wireEvents forallb] in H. apply andb_true_iff in H as [Hev Hrest].
  cbn [deliver]. destruct ev as [d|code message|]; cbn [listener].
  - pose proof (wire_response_never_throws rt d Hev) as Hd.
    destruct (processResponseForAny d rt) as [v|e'|]; cbn [bind];
      [now apply IH|now elim (Hd e')|discriminate].
  - cbn [bind]. now apply IH.
  - cbn [bind]. now apply IH.
Qed.

(** X10.  Replies as the transport delivers them never make a listener
    throw: when every data event of the stream is wire shaped, the
    streaming call is never left with an exception thrown in its [data]
    listener, and when the unary response is wire shaped, the unary call
    is never left with an exception thrown in its callback. *)
Theorem wire_shaped_replies_never_break_a_call
    (this : GrpcClientWrapper) (methodName : string) (request : JsValue)
    (entries : list MetadataEntry) (options : GrpcCallOptions) (now : Z) :
  ((forall method r md co,
      clientMethod (client this) methodName = Some method ->
      wireEvents (method r md co) = true) ->
   forall e, invokeServerStreaming this methodName request entries options now
             <> ListenerThrew e)
  /\ (forall members,
        (forall member r md co response,
           members methodName = Some member ->
           member r md co = Some (ReplyOk response) ->
           wireShaped response = true) ->
        forall e, invokeUnary this members methodName request entries options now
                  <> UCallbackThrew e).
Proof.
  split.
  - intros Hwire e. unfold invokeServerStreaming.
    destruct (createMetadata entries) as [grpcMetadata| |]; try discriminate.
    destruct (processRequestForAny request (root this)) as [processed| |];
      try discriminate.
    destruct (clientMethod (client this) methodName) as [method|] eqn:Hm;
      [|discriminate].
    pose proof (deliver_never_throws (root this) _
                  (Hwire method processed grpcMetadata
                     (callOptionsFor options now) eq_refl)
                  (mkStreamState [] None)) as Hd.
    destruct (deliver (root this) _ (mkStreamState [] None)) as [st|e'|].
    + destruct (settled st) as [[|e']|]; discriminate.
    + now elim (Hd e').
    + discriminate.
  - intros members Hwire e. unfold invokeUnary.
    destruct (createMetadata entries) as [grpcMetadata| |]; try discriminate.
    destruct (processRequestForAny request (root this)) as [processed| |];
      try discriminate.
    destruct (members methodName) as [member|] eqn:Hm; [|discriminate].
    destruct (member processed grpcMetadata (callOptionsFor options now))
      as [[code message|response]|] eqn:Hreply; try discriminate.
    pose proof (wire_response_never_throws (root this) response
                  (Hwire member _ _ _ response eq_refl Hreply)) as Hd.
    destruct (processResponseForAny response (root this)) as [v|e'|];
      [discriminate|now elim (Hd e')|discriminate].
Qed.


End Generic.

(** *** On the reference runtime *)

Import ReferenceRuntime CallData.

Lemma unencodable_request_never_reaches_the_transport_witness :
  let request := JObj [("items", JArr [tick 1; JObj unknownTag])] in
  invokeServerStreaming (lib := ReferenceMetadata.rules) watching "Watch" request []
    (mkGrpcCallOptions None) 0
  = invokeServerStreaming (lib := ReferenceMetadata.rules)
      (@mkWrapper runtime SimHost.echoClient statusRoot "demo.Echo" "/tmp/n8n-grpc-0")
      "Watch" request [] (mkGrpcCallOptions None) 0
  /\ forall rows,
       invokeServerStreaming (lib := ReferenceMetadata.rules) watching "Watch" request []
         (mkGrpcCallOptions None) 0
       <> Resolved rows.
Proof.
  intros request.
  destruct (unencodable_request_never_reaches_the_transport (pb := runtime)
              (lib := ReferenceMetadata.rules)
              statusRoot unknownTag (Error "Type not found: acme.Missing") request
              "demo.Echo" "/tmp/n8n-grpc-0" "Watch" [] (mkGrpcCallOptions None) 0
              eq_refl) with (c := watcher) (c' := SimHost.echoClient)
              (members := unaryEcho) (members' := unaryEcho)
    as (Hsame & _ & Hnever & _).
  - apply ReachesField with (k := "items") (v := JArr [tick 1; JObj unknownTag]);
      [reflexivity | now left |].
    apply ReachesItem with (v := JObj unknownTag); [right; now left | constructor].
  - split; [exact Hsame | exact Hnever].
Defined.

Lemma wire_shaped_replies_never_break_a_call_witness :
  (forall e, invokeServerStreaming (lib := ReferenceMetadata.rules) watching "Watch"
               (tick 0) [] (mkGrpcCallOptions None) 0
             <> ListenerThrew e)
  /\ (forall e, invokeUnary (lib := ReferenceMetadata.rules) watching unaryEcho "Say"
                  opaque [] (mkGrpcCallOptions None) 0
                <> UCallbackThrew e).
Proof.
  destruct (wire_shaped_replies_never_break_a_call (pb := runtime)
              (lib := ReferenceMetadata.rules) watching "Watch"
              (tick 0) [] (mkGrpcCallOptions None) 0) as [Hstream _].
  destruct (wire_shaped_replies_never_break_a_call (pb := runtime)
              (lib := ReferenceMetadata.rules) watching "Say"
              opaque [] (mkGrpcCallOptions None) 0) as [_ Hunary].
  split.
  - apply Hstream. intros method r md co H. injection H as <-. reflexivity.
  - apply (Hunary unaryEcho). intros member r md co response H Hreply.
    injection H as <-. injection Hreply as <-. reflexivity.
Defined.


End CallFacts.

(** ** Construction and release of a client *)

Module LifecycleFacts.

Import SchemaResolver GrpcClientModule GrpcClientMethods ResolverSpec CallSpec.

Lemma chars_app (a b : string) :
  JsString.chars (a ++ b) = JsString.chars a ++ JsString.chars b.
Proof. induction a as [|c r IH]; simpl; [reflexivity | now rewrite <- IH]. Qed.

Lemma of_chars_chars (s : string) : JsString.of_chars (JsString.chars s) = s.
Proof. apply string_of_list_ascii_of_string. Qed.

Lemma splitChars_single (sep : ascii) (a : list ascii) :
  forallb (fun c => negb (Ascii.eqb c sep)) a = true ->
  splitChars sep a = [a].
Proof.
  induction a as [|c r IH]; [reflexivity|].
  cbn [forallb]. intros H. apply andb_true_iff in H as [Hc Hr].
  apply negb_true_iff in Hc. cbn [splitChars]. now rewrite Hc, (IH Hr).
Qed.

Lemma splitChars_cons (sep : ascii) (a b : list ascii) :
  forallb (fun c => negb (Ascii.eqb c sep)) a = true ->
  splitChars sep (a ++ sep :: b) = a :: splitChars sep b.
Proof.
  induction a as [|c r IH].
  - intros _. cbn [app splitChars]. now rewrite Ascii.eqb_refl.
  - cbn [forallb]. intros H. apply andb_true_iff in H as [Hc Hr].
    apply negb_true_iff in Hc. cbn [app splitChars]. now rewrite Hc, (IH Hr).
Qed.

Lemma split_single (name : string) :
  dotless name = true -> split "." name = [name].
Proof.
  intros H. unfold split. rewrite (splitChars_single _ _ H).
  cbn [map]. now rewrite of_chars_chars.
Qed.

Lemma split_cons (part rest : string) :
  dotless part = true ->
  split "." (part ++ "." ++ rest) = part :: split "." rest.
Proof.
  intros H. unfold split. rewrite chars_app. cbn [append JsString.chars list_ascii_of_string].
  change (list_ascii_of_string rest) with (JsString.chars rest).
  rewrite (splitChars_cons _ _ _ H). cbn [map]. now rewrite of_chars_chars.
Qed.

Lemma split_nonempty (s : string) : split "." s <> [].
Proof.
  unfold split. destruct (splitChars "." (JsString.chars s)) eqn:E; [|discriminate].
  exfalso. revert E. induction (JsString.chars s) as [|c r IH]; [discriminate|].
  cbn [splitChars]. destruct (Ascii.eqb c "."); [discriminate|].
  destruct (splitChars "." r); discriminate.
Qed.

(** X12.  The service is looked up along the dotted name, one name
    space at a time.  A name whose first part has no dot is resolved by
    looking that part up among the members of the name space and
    resolving the rest from there; a name with no dot at all must be a
    member that is a service constructor.  Nothing is ever found by
    going through a service constructor or a message type. *)
Theorem service_lookup_follows_the_dotted_name (C : Type) :
  (forall (members : list (string * GrpcObject C)) (part rest : string),
     dotless part = true ->
     findServiceConstructor (GNamespace members) (part ++ "." ++ rest)
     = match lookupMember part members with
       | Some next => findServiceConstructor next rest
       | None => None
       end)
  /\ (forall (members : list (string * GrpcObject C)) (name : string),
        dotless name = true ->
        findServiceConstructor (GNamespace members) name
        = match lookupMember name members with
          | Some (GServiceClient ctor) => Some ctor
          | _ => None
          end)
  /\ (forall (ctor : C) (name : string),
        findServiceConstructor (GServiceClient ctor) name = None
        /\ findServiceConstructor (@GTypeDefinition C) name = None).
Proof.
  split; [|split].
  - intros members part rest H. unfold findServiceConstructor.
    rewrite (split_cons _ _ H). cbn [walkParts].
    now destruct (lookupMember part members).
  - intros members name H. unfold findServiceConstructor.
    rewrite (split_single _ H). cbn [walkParts].
    now destruct (lookupMember name members) as [[ | | ]|].
  - intros ctor name. unfold findServiceConstructor.
    pose proof (split_nonempty name) as Hne.
    destruct (split "." name) as [|part rest]; [now elim Hne|]. split; reflexivity.
Qed.

Lemma service_lookup_follows_the_dotted_name_witness :
  findServiceConstructor CallData.services "demo.v1.Echo"
  = match lookupMember "demo"
            [("demo", GNamespace [("Echo", GServiceClient 1);
                                  ("Ping", GTypeDefinition);
                                  ("v1", GNamespace [("Echo", GServiceClient 2)])])]
    with
    | Some next => findServiceConstructor next "v1.Echo"
    | None => None
    end
  /\ findServiceConstructor (GNamespace [("Echo", GServiceClient 2)]) "Echo"
     = match lookupMember "Echo" [("Echo", GServiceClient 2)] with
       | Some (GServiceClient ctor) => Some ctor
       | _ => None
       end.
Proof.
  destruct (service_lookup_follows_the_dotted_name nat) as (Hstep & Hlast & _).
  split.
  - apply (Hstep _ "demo" "v1.Echo"). reflexivity.
  - apply (Hlast _ "Echo"). reflexivity.
Defined.

Section Generic.

Context {pb : Protobuf} {hostEnv : Host}.

Lemma seqIO_returns {A B : Type} (m : IO A) (f : A -> IO B) (w w' : World) (b : B) :
  seqIO m f w = (Returns b, w') ->
  exists a w1, m w = (Returns a, w1) /\ f a w1 = (Returns b, w').
Proof.
  unfold seqIO. destruct (m w) as [[a| |] w1]; try discriminate.
  intros H. now exists a, w1.
Qed.

Lemma cleanup_then_throw_never_returns {A : Type} (dir : string) (e : JsError)
    (w w' : World) (a : A) :
  seqIO (cleanupTempDir dir) (fun _ => throw e) w <> (Returns a, w').
Proof.
  unfold seqIO, cleanupTempDir, tryCatch, ret, throw.
  destruct (rmSync dir w) as [[[]| |] w1]; discriminate.
Qed.

(** X13.  A client wrapper is only ever returned for a schema that
    stages, loads and parses: when [createGrpcClient] returns, the
    wrapper's directory is the one [mkdtempSync] created, its service
    name is the one asked for, its root is what [parseProtoFiles]
    returned for the configured files, and its client was constructed,
    for the configured host and with the credentials the [useTls] flag
    selects, from the constructor found under the service name.  The
    world is left as the construction left it: nothing is removed. *)
Theorem returned_client_is_fully_built
    (config : GrpcConfig) (name : string) (w w' : World) (this : GrpcClientWrapper) :
  createGrpcClient config name w = (Returns this, w') ->
  exists dir w1,
    mkdtempSync stagingPrefix w = (Returns dir, w1)
    /\ construction config name dir w1 = (Returns this, w')
    /\ tempDir this = dir
    /\ serviceName this = name
    /\ parseProtoFiles (protoFiles config) = Returns (root this)
    /\ exists packageDefinition grpcObject ctor credentials,
         loadPackageDefinition packageDefinition = Returns grpcObject
         /\ findServiceConstructor grpcObject name = Some ctor
         /\ (if useTls config then createSsl else createInsecure) = Returns credentials
         /\ construct ctor (host config) credentials = Returns (client this).
Proof.
  intros H. unfold createGrpcClient in H.
  apply seqIO_returns in H as (dir & w1 & Hmk & H).
  exists dir, w1. split; [exact Hmk|].
  unfold tryCatch in H.
  destruct (construction config name dir w1) as [[wr|e|] w2] eqn:Hbody.
  - inversion H; subst wr w2. split; [reflexivity|].
    unfold construction in Hbody.
    apply seqIO_returns in Hbody as (? & w3 & _ & Hbody).
    apply seqIO_returns in Hbody as (? & w4 & _ & Hbody).
    apply seqIO_returns in Hbody as (packageDefinition & w5 & _ & Hbody).
    apply seqIO_returns in Hbody as (grpcObject & w6 & Hload & Hbody).
    unfold lift in Hload. inversion Hload; subst w6.
    destruct (findServiceConstructor grpcObject name) as [ctor|] eqn:Hfind;
      [|discriminate Hbody].
    apply seqIO_returns in Hbody as (credentials & w7 & Hcred & Hbody).
    unfold lift in Hcred. inversion Hcred; subst w7.
    apply seqIO_returns in Hbody as (newClient & w8 & Hnew & Hbody).
    unfold lift in Hnew. inversion Hnew; subst w8.
    apply seqIO_returns in Hbody as (parsedRoot & w9 & Hparse & Hbody).
    unfold lift in Hparse. inversion Hparse; subst w9.
    unfold ret in Hbody. inversion Hbody; subst this. cbn [tempDir serviceName root client].
    repeat split; try assumption.
    exists packageDefinition, grpcObject, ctor, credentials. repeat split; assumption.
  - now apply cleanup_then_throw_never_returns in H.
  - discriminate.
Qed.

(** X14.  Releasing a client.  When closing the channel throws, [close]
    throws the same error and the staging directory is not touched: the
    world is the one the channel left.  When closing the channel
    returns, [close] never throws, whatever the removal of the staging
    directory does, and the removal is the last thing done to the
    world. *)
Theorem close_releases_channel_then_directory
    (closeClient : GrpcClient -> IO unit) (this : GrpcClientWrapper) (w w1 : World) :
  (forall e, closeClient (client this) w = (Throws e, w1) ->
             close closeClient this w = (Throws e, w1))
  /\ (closeClient (client this) w = (Returns tt, w1) ->
      (forall e, fst (close closeClient this w) <> Throws e)
      /\ snd (close closeClient this w) = snd (rmSync (tempDir this) w1)).
Proof.
  unfold close, seqIO, cleanupTempDir, tryCatch, ret. split.
  - intros e H. now rewrite H.
  - intros H. rewrite H.
    destruct (rmSync (tempDir this) w1) as [[[]| |] w2]; split; try discriminate;
      reflexivity.
Qed.

(** X15.  The user files are parsed in order, each into the root the
    files before it left.  When the files before [bad] parse and [bad]
    does not, the resolver throws
    [Failed to parse proto file "<name of bad>": <message>], whatever
    files follow; when all parse, the resolver returns what [resolveAll]
    makes of the root they left, or throws its error as it is. *)
Theorem first_failing_file_is_reported
    (good rest : list ProtoFile) (bad : ProtoFile) (r0 : Root) (error : JsError) :
  parsedInto good seeded = Some r0 ->
  (snd (parse (content bad) r0) = Some error ->
   parseProtoFiles (good ++ bad :: rest)
   = Throws (Error ("Failed to parse proto file " ++ dq ++ filename bad ++ dq
                    ++ ": " ++ errorMessage error)))
  /\ parseProtoFiles good
     = match resolveAll r0 with
       | (root, None) => Returns root
       | (_, Some e) => Throws e
       end.
Proof.
  intros Hgood. rewrite !ResolverFacts.parseProtoFiles_seeded.
  revert Hgood. generalize (@seeded pb). induction good as [|f files IH]; intros r Hgood.
  - cbn [parsedInto] in Hgood. inversion Hgood; subst r0. cbn [app parseUserFiles bind].
    split; [|reflexivity]. intros Hbad.
    destruct (parse (content bad) r) as [r1 [err|]]; cbn [snd] in Hbad;
      [|discriminate]. now inversion Hbad.
  - cbn [parsedInto] in Hgood. cbn [app parseUserFiles].
    destruct (parse (content f) r) as [r1 [err|]]; [discriminate|].
    now apply IH.
Qed.

End Generic.

(** *** On the reference runtime and the simulated host *)

Import ReferenceRuntime SimHost ConstructionData CallData.

Lemma returned_client_is_fully_built_witness :
  exists (this : GrpcClientWrapper (pb := runtime)) (dir : string),
    mkdtempSync (Host := host) (stagingPrefix (hostEnv := host)) (fresh false)
    = (Returns dir, mkSimWorld [staging] 1 false)
    /\ tempDir this = dir
    /\ serviceName this = "demo.Echo"
    /\ parseProtoFiles (pb := runtime) [commonProto] = Returns (root this).
Proof.
  assert (Hr : returned (fst (createGrpcClient (pb := runtime) (hostEnv := host)
                                config "demo.Echo" (fresh false))) = true)
    by (vm_compute; reflexivity).
  destruct (createGrpcClient (pb := runtime) (hostEnv := host) config "demo.Echo"
              (fresh false)) as [[this| |] w'] eqn:H; try discriminate Hr.
  destruct (returned_client_is_fully_built (pb := runtime) (hostEnv := host)
              config "demo.Echo" (fresh false) w' this H)
    as (dir & w1 & Hmk & _ & Hdir & Hname & Hroot & _).
  exists this, dir. repeat split; try assumption.
  cbn in Hmk. inversion Hmk; subst. reflexivity.
Defined.

Lemma close_releases_channel_then_directory_witness :
  let this := @mkWrapper runtime echoClient statusRoot "demo.Echo" staging in
  let w := mkSimWorld [(staging ++ "/common.proto")%string; staging] 1 false in
  (forall e, fst (close (hostEnv := host) (fun _ => ret tt) this w) <> Throws e)
  /\ snd (close (hostEnv := host) (fun _ => ret tt) this w)
     = snd (rmSync (Host := host) staging w).
Proof.
  intros this w.
  apply (proj2 (close_releases_channel_then_directory (pb := runtime) (hostEnv := host)
                  (fun _ => ret tt) this w w)).
  reflexivity.
Defined.

Lemma first_failing_file_is_reported_witness :
  parseProtoFiles (pb := runtime) ([commonProto] ++ brokenProto :: [lateProto])
  = Throws (Error ("Failed to parse proto file " ++ dq ++ "broken.proto" ++ dq
                   ++ ": illegal token 'nonsense'"))
  /\ parseProtoFiles (pb := runtime) [commonProto] = Returns statusRoot.
Proof.
  assert (Hgood : parsedInto (pb := runtime) [commonProto] (seeded (pb := runtime))
                  = Some statusRoot) by reflexivity.
  destruct (first_failing_file_is_reported (pb := runtime) [commonProto] [lateProto]
              brokenProto statusRoot (Error "illegal token 'nonsense'") Hgood)
    as [Hbad Hall].
  split; [apply Hbad; reflexivity | exact Hall].
Defined.

End LifecycleFacts.

(** ** The node's helper *)

Module NodeFacts.

Import NodeHelpers.

Lemma get_first (k : string) (v : JsValue) (rest : Props) :
  Js.get k ((k, v) :: rest) = v.
Proof. cbn [Js.get]. now rewrite String.eqb_refl. Qed.

Lemma has_first (k : string) (v : JsValue) (rest : Props) :
  Js.has k ((k, v) :: rest) = true.
Proof. unfold Js.has. cbn [existsb fst]. now rewrite String.eqb_refl. Qed.

Lemma collect_plain (groupName : string) (items : list JsValue) :
  forallb (plainWithout groupName) items = true ->
  forall result, collect groupName items result = Returns (result ++ items).
Proof.
  induction items as [|x rest IH]; intros H result.
  - now rewrite app_nil_r.
  - cbn [forallb] in H. apply andb_true_iff in H as [Hx Hrest].
    destruct x as [ | | | | | | |record]; try discriminate Hx.
    cbn [plainWithout] in Hx. apply negb_true_iff in Hx.
    cbn [collect itemValues]. rewrite Hx. cbn [bind].
    rewrite (IH Hrest). now rewrite <- app_assoc.
Qed.

Lemma collect_wrapped (groupName : string) (items : list JsValue) :
  forallb (plainWithout groupName) items = true ->
  forall result,
    collect groupName (map (fun x => JObj [(groupName, x)]) items) result
    = Returns (result ++ items).
Proof.
  induction items as [|x rest IH]; intros H result.
  - now rewrite app_nil_r.
  - cbn [forallb] in H. apply andb_true_iff in H as [Hx Hrest].
    destruct x as [ | | | | | | |record]; try discriminate Hx.
    cbn [map collect itemValues]. rewrite has_first, get_first. cbn [bind].
    rewrite (IH Hrest). now rewrite <- app_assoc.
Qed.

(** X16.  The shapes n8n serialises a fixed collection in normalise to
    the same list.  For items that are plain objects without a member
    named like the group, [{ group: items }], the array of the
    [{ group: item }], the array holding the one [{ group: items }] and
    the bare array [items] all give [items], in order; [{ group: item }]
    gives the one item; and a falsy value gives the empty list. *)
Theorem collection_shapes_normalise_alike (groupName : string) (items : list JsValue) :
  existsb (String.eqb groupName) inheritedNames = false ->
  forallb (plainWithout groupName) items = true ->
  normalizeFixedCollectionArray (JObj [(groupName, JArr items)]) groupName = Returns items
  /\ normalizeFixedCollectionArray
       (JArr (map (fun x => JObj [(groupName, x)]) items)) groupName = Returns items
  /\ normalizeFixedCollectionArray (JArr [JObj [(groupName, JArr items)]]) groupName
     = Returns items
  /\ normalizeFixedCollectionArray (JArr items) groupName = Returns items
  /\ (forall x, In x items ->
                normalizeFixedCollectionArray (JObj [(groupName, x)]) groupName
                = Returns [x])
  /\ (forall raw, Js.truthy raw = false ->
                  normalizeFixedCollectionArray raw groupName = Returns []).
Proof.
  intros Hname Hplain. unfold normalizeFixedCollectionArray.
  cbn [Js.truthy negb]. rewrite Hname. repeat split.
  - now rewrite get_first.
  - now rewrite (collect_wrapped _ _ Hplain).
  - cbn [collect itemValues]. rewrite has_first, get_first. reflexivity.
  - now rewrite (collect_plain _ _ Hplain).
  - intros x Hin. rewrite get_first.
    rewrite forallb_forall in Hplain. specialize (Hplain x Hin).
    now destruct x.
  - intros raw Hraw. now rewrite Hraw.
Qed.

Lemma collection_shapes_normalise_alike_witness :
  let items := [JObj [("key", JStr "authorization"); ("value", JStr "Bearer t")];
                JObj [("key", JStr "x-tenant"); ("value", JStr "acme")]] in
  normalizeFixedCollectionArray (JObj [("entries", JArr items)]) "entries" = Returns items
  /\ normalizeFixedCollectionArray
       (JArr (map (fun x => JObj [("entries", x)]) items)) "entries" = Returns items
  /\ normalizeFixedCollectionArray (JArr items) "entries" = Returns items.
Proof.
  intros items.
  destruct (collection_shapes_normalise_alike "entries" items eq_refl eq_refl)
    as (Hgroup & Heach & _ & Hbare & _).
  repeat split; assumption.
Defined.

End NodeFacts.

(** ** Service discovery *)

Module DiscoveryFacts.

Import GrpcClientModule CallSpec Discovery LifecycleFacts.

(** Induction on a reflection object, with the nested objects as
    smaller ones. *)
Lemma ReflectionObject_nested_ind (P : ReflectionObject -> Prop) :
  (forall name nestedArray, Forall P nestedArray -> P (RNamespace name nestedArray)) ->
  (forall name nestedArray, Forall P nestedArray -> P (RType name nestedArray)) ->
  (forall name methodsArray nestedArray,
     Forall P nestedArray -> P (RService name methodsArray nestedArray)) ->
  (forall name, P (RLeaf name)) ->
  forall o, P o.
Proof.
  intros Hn Ht Hs Hl.
  exact (fix go (o : ReflectionObject) : P o :=
           let all := fix all (l : list ReflectionObject) : Forall P l :=
                        match l with
                        | [] => Forall_nil P
                        | x :: r => Forall_cons x (go x) (all r)
                        end in
           match o with
           | RNamespace name nestedArray => Hn name nestedArray (all nestedArray)
           | RType name nestedArray => Ht name nestedArray (all nestedArray)
           | RService name methodsArray nestedArray =>
               Hs name methodsArray nestedArray (all nestedArray)
           | RLeaf name => Hl name
           end).
Qed.

Lemma append_assoc (a b c : string) : ((a ++ b) ++ c = a ++ (b ++ c))%string.
Proof. induction a as [|x r IH]; simpl; [reflexivity | now rewrite IH]. Qed.

Lemma concat_snoc (x : string) (xs : list string) (name : string) :
  (String.concat "." (x :: xs) ++ "." ++ name)%string
  = String.concat "." ((x :: xs) ++ [name]).
Proof.
  revert x. induction xs as [|y ys IH]; intros x; [reflexivity|].
  change (String.concat "." (x :: y :: ys))
    with (x ++ "." ++ String.concat "." (y :: ys))%string.
  change (String.concat "." ((x :: y :: ys) ++ [name]))
    with (x ++ "." ++ String.concat "." ((y :: ys) ++ [name]))%string.
  rewrite <- IH. now rewrite !append_assoc.
Qed.

Lemma concat_truthy (x : string) (xs : list string) :
  JsString.truthy x = true -> JsString.truthy (String.concat "." (x :: xs)) = true.
Proof.
  destruct x as [|c r]; [discriminate|]. intros _. now destruct xs.
Qed.

Lemma currentPath_snoc (above : list string) (name : string) :
  forallb JsString.truthy above = true ->
  currentPath (String.concat "." above) name = String.concat "." (above ++ [name]).
Proof.
  destruct above as [|x xs]; [reflexivity|].
  cbn [forallb]. intros H. apply andb_true_iff in H as [Hx _].
  unfold currentPath. rewrite (concat_truthy x xs Hx). apply concat_snoc.
Qed.

Lemma flat_map_described (f : ReflectionObject -> list ServiceInfo)
    (g : ReflectionObject -> list (list string * list Method))
    (l : list ReflectionObject) :
  Forall (fun o => f o = map describe (g o)) l ->
  flat_map f l = map describe (flat_map g l).
Proof.
  induction 1 as [|o r Ho _ IH]; [reflexivity|].
  cbn [flat_map]. now rewrite map_app, Ho, IH.
Qed.

Lemma forallb_snoc (p : string -> bool) (l : list string) (x : string) :
  forallb p l = true -> p x = true -> forallb p (l ++ [x]) = true.
Proof.
  intros Hl Hx. rewrite forallb_app, Hl. cbn [forallb]. now rewrite Hx.
Qed.

Lemma Forall_nested (P : ReflectionObject -> Prop) (p : string -> bool)
    (l : list ReflectionObject) :
  Forall (fun o => named p o = true -> P o) l ->
  forallb (named p) l = true -> Forall P l.
Proof.
  induction 1 as [|o r Ho _ IH]; intros Hb; constructor;
    cbn [forallb] in Hb; apply andb_true_iff in Hb as [H1 H2]; auto.
Qed.

(** The walk below a path of names that are not empty. *)
Lemma walk_by_paths (o : ReflectionObject) :
  forall above,
    named JsString.truthy o = true ->
    forallb JsString.truthy above = true ->
    walkObject (String.concat "." above) o = map describe (servicePaths above o).
Proof.
  induction o as [name inner IH|name inner IH|name ms inner IH|name]
    using ReflectionObject_nested_ind; intros above Hn Ha; cbn [named] in Hn;
    try apply andb_true_iff in Hn as [Hname Hinner];
    cbn [walkObject servicePaths map].
  - rewrite (currentPath_snoc _ _ Ha). apply flat_map_described.
    apply (Forall_nested _ JsString.truthy); [|exact Hinner].
    eapply Forall_impl; [|exact IH]. intros x Hx Hnx. apply Hx; [exact Hnx|].
    now apply forallb_snoc.
  - rewrite (currentPath_snoc _ _ Ha). apply flat_map_described.
    apply (Forall_nested _ JsString.truthy); [|exact Hinner].
    eapply Forall_impl; [|exact IH]. intros x Hx Hnx. apply Hx; [exact Hnx|].
    now apply forallb_snoc.
  - rewrite (currentPath_snoc _ _ Ha). f_equal.
    + unfold describe. cbn [fst snd]. now rewrite last_last.
    + apply flat_map_described.
      apply (Forall_nested _ JsString.truthy); [|exact Hinner].
      eapply Forall_impl; [|exact IH]. intros x Hx Hnx. apply Hx; [exact Hnx|].
      now apply forallb_snoc.
  - reflexivity.
Qed.

(** X17.  In a tree whose name spaces, types and services all have a
    name, [discoverServices] lists every service of the tree, wherever
    it is nested, in the order of the tree, a service before the ones
    nested in it; the full name of each is the names on the way from
    the root joined by dots, its name the last of them, and its methods
    are the methods of the service in their order, a missing stream
    flag read as [false]. *)
Theorem discovery_lists_services_by_dotted_path (root : list ReflectionObject) :
  forallb (named JsString.truthy) root = true ->
  discoverServices root = map describe (flat_map (servicePaths []) root).
Proof.
  intros H. unfold discoverServices, walkNamespace.
  apply flat_map_described. rewrite forallb_forall in H.
  apply Forall_forall. intros o Hin.
  exact (walk_by_paths o [] (H o Hin) eq_refl).
Qed.

Lemma discovery_lists_services_by_dotted_path_witness :
  discoverServices shop
  = [mkServiceInfo "Orders" "shop.v1.Orders"
       [mkMethodInfo "Get" "GetRequest" "Order" false false;
        mkMethodInfo "Watch" "WatchRequest" "Order" false true];
     mkServiceInfo "Audit" "shop.v1.admin.Audit"
       [mkMethodInfo "List" "ListRequest" "ListReply" false false]].
Proof.
  apply (discovery_lists_services_by_dotted_path shop). reflexivity.
Defined.

Lemma split_concat (path : list string) :
  path <> [] -> forallb dotless path = true ->
  split "." (String.concat "." path) = path.
Proof.
  induction path as [|x xs IH]; intros Hne H; [now elim Hne|].
  cbn [forallb] in H. apply andb_true_iff in H as [Hx Hxs].
  destruct xs as [|y ys]; [now apply split_single|].
  change (String.concat "." (x :: y :: ys))
    with (x ++ "." ++ String.concat "." (y :: ys))%string.
  rewrite (split_cons _ _ Hx), IH; [reflexivity|discriminate|exact Hxs].
Qed.

Lemma identifier_parts (s : string) :
  identifier s = true -> JsString.truthy s = true /\ dotless s = true.
Proof. unfold identifier. intros H. now apply andb_true_iff in H. Qed.

Lemma named_weaken (p q : string -> bool) (o : ReflectionObject) :
  (forall s, p s = true -> q s = true) -> named p o = true -> named q o = true.
Proof.
  intros Hpq.
  induction o as [name inner IH|name inner IH|name ms inner IH|name]
    using ReflectionObject_nested_ind; intros H; cbn [named] in *;
    try reflexivity;
    apply andb_true_iff in H as [Hname Hinner]; rewrite (Hpq _ Hname); cbn [andb];
    apply forallb_forall; intros x Hin; rewrite Forall_forall in IH;
    rewrite forallb_forall in Hinner; auto.
Qed.

Lemma paths_are_named (o : ReflectionObject) :
  forall above found,
    named dotless o = true -> forallb dotless above = true ->
    In found (servicePaths above o) ->
    fst found <> [] /\ forallb dotless (fst found) = true.
Proof.
  assert (Hnested : forall inner above found,
             Forall (fun o => forall above found,
                       named dotless o = true -> forallb dotless above = true ->
                       In found (servicePaths above o) ->
                       fst found <> [] /\ forallb dotless (fst found) = true) inner ->
             forallb (named dotless) inner = true -> forallb dotless above = true ->
             In found (flat_map (servicePaths above) inner) ->
             fst found <> [] /\ forallb dotless (fst found) = true).
  { intros inner above found IH Hinner Ha Hin.
    apply in_flat_map in Hin as (x & Hx & Hin).
    rewrite Forall_forall in IH. rewrite forallb_forall in Hinner.
    exact (IH x Hx above found (Hinner x Hx) Ha Hin). }
  induction o as [name inner IH|name inner IH|name ms inner IH|name]
    using ReflectionObject_nested_ind; intros above found Hn Ha Hin;
    cbn [named] in Hn; try apply andb_true_iff in Hn as [Hname Hinner];
    cbn [servicePaths] in Hin.
  - apply (Hnested inner (above ++ [name]) found IH Hinner); [|exact Hin].
    now apply forallb_snoc.
  - apply (Hnested inner (above ++ [name]) found IH Hinner); [|exact Hin].
    now apply forallb_snoc.
  - destruct Hin as [<-|Hin].
    + cbn [fst]. split; [now destruct above | now apply forallb_snoc].
    + apply (Hnested inner (above ++ [name]) found IH Hinner); [|exact Hin].
      now apply forallb_snoc.
  - contradiction.
Qed.

(** X18.  The full name under which a service is discovered leads back
    to it: in a tree whose names are not empty and hold no dot, the full
    name of every discovered service, split at the dots as
    [findServiceConstructor] splits a service name, is the list of the
    names on the way from the root to that service, the last of which is
    the name of the service. *)
Theorem discovered_name_splits_into_its_path
    (root : list ReflectionObject) (service : ServiceInfo) :
  forallb (named identifier) root = true ->
  In service (discoverServices root) ->
  exists path methodsArray,
    In (path, methodsArray) (flat_map (servicePaths []) root)
    /\ split "." (fullName service) = path
    /\ last path "" = serviceName service
    /\ methods service = map methodInfo methodsArray.
Proof.
  intros Hroot Hin.
  assert (Htruthy : forallb (named JsString.truthy) root = true).
  { apply forallb_forall. intros o Ho. rewrite forallb_forall in Hroot.
    apply (named_weaken identifier); [|now apply Hroot].
    intros s Hs. now apply identifier_parts in Hs. }
  assert (Hdotless : forallb (named dotless) root = true).
  { apply forallb_forall. intros o Ho. rewrite forallb_forall in Hroot.
    apply (named_weaken identifier); [|now apply Hroot].
    intros s Hs. now apply identifier_parts in Hs. }
  unfold discoverServices, walkNamespace in Hin.
  apply in_flat_map in Hin as (o & Ho & Hin).
  rewrite forallb_forall in Htruthy, Hdotless.
  pose proof (walk_by_paths o [] (Htruthy o Ho) eq_refl) as Hwalk.
  cbn [String.concat] in Hwalk. rewrite Hwalk in Hin.
  apply in_map_iff in Hin as ([path ms] & <- & Hin).
  destruct (paths_are_named o [] (path, ms) (Hdotless o Ho) eq_refl Hin) as [Hne Hd].
  exists path, ms. cbn [fst snd describe fullName serviceName methods] in *.
  repeat split.
  - apply in_flat_map. now exists o.
  - now apply split_concat.
Qed.

Lemma discovered_name_splits_into_its_path_witness :
  exists path methodsArray,
    In (path, methodsArray) (flat_map (servicePaths []) shop)
    /\ split "." "shop.v1.admin.Audit" = path
    /\ last path "" = "Audit"
    /\ [mkMethodInfo "List" "ListRequest" "ListReply" false false]
       = map methodInfo methodsArray.
Proof.
  apply (discovered_name_splits_into_its_path shop
           (mkServiceInfo "Audit" "shop.v1.admin.Audit"
              [mkMethodInfo "List" "ListRequest" "ListReply" false false])).
  - reflexivity.
  - right. now left.
Defined.

End DiscoveryFacts.

(** ** Request skeletons *)

Module SkeletonFacts.

Import Skeleton CodecFacts.

Lemma fill_fields (generate : string -> option Props) (fields : list Field) :
  forall acc obj,
    NoDup (map fst acc ++ map name fields) ->
    fill generate fields acc = Some obj ->
    exists added,
      obj = acc ++ added
      /\ Forall2 (fun field kv =>
                    fst kv = name field
                    /\ exists value,
                         getFieldDefaultWith generate field = Some value
                         /\ snd kv = if repeated field then JArr [value] else value)
                 fields added.
Proof.
  induction fields as [|field rest IH]; intros acc obj Hd H.
  - inversion H; subst. exists []. rewrite app_nil_r. split; [reflexivity|constructor].
  - cbn [fill] in H.
    destruct (getFieldDefaultWith generate field) as [value|] eqn:Hv; [|discriminate].
    assert (Hk : ~ In (name field) (map fst acc)).
    { cbn [map] in Hd. apply NoDup_remove_2 in Hd. intros Hin. apply Hd, in_or_app.
      now left. }
    rewrite (set_fresh _ _ acc Hk) in H.
    assert (Hd' : NoDup (map fst (acc ++ [(name field,
                                          if repeated field then JArr [value] else value)])
                         ++ map name rest)).
    { rewrite map_app. cbn [map fst]. rewrite <- app_assoc. exact Hd. }
    destruct (IH _ obj Hd' H) as (added & -> & Hall).
    exists ((name field, if repeated field then JArr [value] else value) :: added).
    rewrite <- app_assoc. split; [reflexivity|].
    constructor; [|exact Hall]. split; [reflexivity|]. now exists value.
Qed.

(** X19.  A skeleton holds every field of its type, once and in the
    order of the type: whenever the generator returns for a type whose
    field names are distinct, the object has one entry for each field,
    under the field's name, holding the field's default, inside a
    one-item array when the field is repeated. *)
Theorem skeleton_holds_every_field
    (depth : nat) (schema : Schema) (fullName : string) (obj : Props) :
  NoDup (map name (schema fullName)) ->
  generateRequestSkeleton (S depth) schema fullName = Some obj ->
  Forall2 (fun field kv =>
             fst kv = name field
             /\ exists value,
                  getFieldDefault depth schema field = Some value
                  /\ snd kv = if repeated field then JArr [value] else value)
          (schema fullName) obj.
Proof.
  intros Hd H. cbn [generateRequestSkeleton] in H.
  destruct (fill_fields _ _ [] obj Hd H) as (added & -> & Hall). exact Hall.
Qed.

Lemma default_without_descent (g g' : string -> option Props) (field : Field) :
  descendsInto field = None ->
  getFieldDefaultWith g field = getFieldDefaultWith g' field
  /\ getFieldDefaultWith g field <> None.
Proof.
  unfold descendsInto, getFieldDefaultWith.
  destruct (resolvedType field) as [|values|target].
  - intros _. split; [reflexivity|discriminate].
  - intros _. destruct values; split; try reflexivity; discriminate.
  - destruct (template target); [|discriminate]. intros _.
    split; [reflexivity|discriminate].
Qed.

Lemma default_with_descent (g : string -> option Props) (field : Field)
    (target : string) :
  descendsInto field = Some target ->
  getFieldDefaultWith g field = option_map JObj (g target).
Proof.
  unfold descendsInto, getFieldDefaultWith.
  destruct (resolvedType field) as [|values|t]; try discriminate.
  destruct (template t); [discriminate|]. now intros [= ->].
Qed.

Lemma fill_agrees (g g' : string -> option Props) (fields : list Field) :
  (forall field, In field fields ->
                 getFieldDefaultWith g field = getFieldDefaultWith g' field) ->
  forall acc, fill g fields acc = fill g' fields acc.
Proof.
  induction fields as [|field rest IH]; intros H acc; [reflexivity|].
  cbn [fill]. rewrite <- (H field (or_introl eq_refl)).
  destruct (getFieldDefaultWith g field); [|reflexivity].
  apply IH. intros f Hin. apply H. now right.
Qed.

Lemma fill_returns (g : string -> option Props) (fields : list Field) :
  (forall field, In field fields -> getFieldDefaultWith g field <> None) ->
  forall acc, fill g fields acc <> None.
Proof.
  induction fields as [|field rest IH]; intros H acc; [discriminate|].
  cbn [fill]. pose proof (H field (or_introl eq_refl)) as Hf.
  destruct (getFieldDefaultWith g field); [|now elim Hf].
  apply IH. intros f Hin. apply H. now right.
Qed.

Lemma fill_stops (g : string -> option Props) (fields : list Field) (field : Field) :
  In field fields -> getFieldDefaultWith g field = None ->
  forall acc, fill g fields acc = None.
Proof.
  induction fields as [|f rest IH]; intros Hin Hnone acc; [contradiction|].
  cbn [fill]. destruct Hin as [->|Hin]; [now rewrite Hnone|].
  destruct (getFieldDefaultWith g f); [now apply IH | reflexivity].
Qed.

(** X20.  On a schema without a cycle the generator returns, and what
    it returns does not depend on the bound: when every message field
    the generator descends through leads to a type of lower rank, every
    nesting bound above the rank of a type gives the same skeleton for
    it. *)
Theorem ranked_schema_gives_a_skeleton (schema : Schema) (rank : string -> nat) :
  (forall fullName field target,
     In field (schema fullName) -> descendsInto field = Some target ->
     rank target < rank fullName) ->
  forall fullName depth depth',
    rank fullName < depth -> rank fullName < depth' ->
    (exists obj, generateRequestSkeleton depth schema fullName = Some obj)
    /\ generateRequestSkeleton depth schema fullName
       = generateRequestSkeleton depth' schema fullName.
Proof.
  intros Hrank.
  assert (Hsome : forall depth fullName,
             rank fullName < depth ->
             generateRequestSkeleton depth schema fullName <> None).
  { induction depth as [|depth IH]; intros fullName Hlt; [lia|].
    cbn [generateRequestSkeleton]. apply fill_returns. intros field Hin.
    destruct (descendsInto field) as [target|] eqn:Hd.
    - rewrite (default_with_descent _ _ _ Hd).
      pose proof (Hrank _ _ _ Hin Hd) as Hlow.
      specialize (IH target ltac:(lia)).
      now destruct (generateRequestSkeleton depth schema target).
    - apply (default_without_descent _ (fun _ => None) _ Hd). }
  assert (Hsame : forall depth depth' fullName,
             rank fullName < depth -> rank fullName < depth' ->
             generateRequestSkeleton depth schema fullName
             = generateRequestSkeleton depth' schema fullName).
  { induction depth as [|depth IH]; intros depth' fullName Hlt Hlt'; [lia|].
    destruct depth' as [|depth']; [lia|].
    cbn [generateRequestSkeleton]. apply fill_agrees. intros field Hin.
    destruct (descendsInto field) as [target|] eqn:Hd.
    - rewrite !(default_with_descent _ _ _ Hd).
      pose proof (Hrank _ _ _ Hin Hd) as Hlow.
      now rewrite (IH depth' target) by lia.
    - apply (default_without_descent _ _ _ Hd). }
  intros fullName depth depth' Hlt Hlt'. split; [|now apply Hsame].
  specialize (Hsome depth fullName Hlt).
  destruct (generateRequestSkeleton depth schema fullName) as [obj|];
    [now exists obj | now elim Hsome].
Qed.

(** X21.  On a cycle the generator never returns.  When every type of a
    set has a message field through which the generator descends into a
    type of the set again, as a type that holds a field of its own type
    does, no nesting bound gives a skeleton for a type of the set: the
    calls nest without end. *)
Theorem cyclic_schema_gives_no_skeleton (schema : Schema) (cyclic : string -> Prop) :
  (forall fullName,
     cyclic fullName ->
     exists field target,
       In field (schema fullName) /\ descendsInto field = Some target /\ cyclic target) ->
  forall depth fullName,
    cyclic fullName -> generateRequestSkeleton depth schema fullName = None.
Proof.
  intros Hcycle. induction depth as [|depth IH]; intros fullName Hin; [reflexivity|].
  destruct (Hcycle fullName Hin) as (field & target & Hfield & Hd & Htarget).
  cbn [generateRequestSkeleton]. apply (fill_stops _ _ field Hfield).
  now rewrite (default_with_descent _ _ _ Hd), (IH target Htarget).
Qed.

(** X22.  A field of a well-known message type is answered by the name
    of the type, never by descending into it: this holds for each of
    the sixteen well-known message types, [Struct] and [Value], which
    hold each other, among them.  A wrapper type is answered with
    [{ value: d }], [d] being the default of the wrapped scalar; so is
    [ListValue], whose name passes the test for wrappers, with [null]
    for [d]. *)
Theorem well_known_fields_are_answered_by_name :
  Forall
    (fun typeName =>
       forall fieldName fieldType isRepeated,
         descendsInto
           (mkField fieldName fieldType isRepeated (ResolvedType ("." ++ typeName)))
         = None)
    SchemaResolver.wellKnownTypeNames
  /\ Forall
       (fun wrapper =>
          forall generate fieldName fieldType isRepeated,
            getFieldDefaultWith generate
              (mkField fieldName fieldType isRepeated
                 (ResolvedType (".google.protobuf." ++ fst wrapper)))
            = Some (JObj [("value", snd wrapper)]))
       wrapperDefaults.
Proof.
  split.
  - unfold SchemaResolver.wellKnownTypeNames. cbn [map].
    repeat constructor.
  - unfold wrapperDefaults. repeat constructor.
Qed.

Lemma skeleton_holds_every_field_witness :
  Forall2 (fun field kv =>
             fst kv = name field
             /\ exists value,
                  getFieldDefault 1 orders field = Some value
                  /\ snd kv = if repeated field then JArr [value] else value)
          (orders ".shop.Order")
          [("id", JNum 0); ("tags", JArr [JStr ""]);
           ("placed", JObj [("seconds", JNum 0); ("nanos", JNum 0)]);
           ("status", JStr "PENDING");
           ("customer", JObj [("name", JStr ""); ("note", JObj [("value", JStr "")])])].
Proof.
  apply (skeleton_holds_every_field 1 orders ".shop.Order").
  - repeat constructor; simpl; intuition discriminate.
  - reflexivity.
Defined.

Lemma orders_ranked (fullName : string) (field : Field) (target : string) :
  In field (orders fullName) -> descendsInto field = Some target ->
  ordersRank target < ordersRank fullName.
Proof.
  unfold orders, ordersRank.
  destruct (String.eqb fullName ".shop.Order").
  - intros [<-|[<-|[<-|[<-|[<-|[]]]]]]; try discriminate.
    intros [= <-]. cbn. lia.
  - destruct (String.eqb fullName ".shop.Customer"); [|contradiction].
    intros [<-|[<-|[]]]; discriminate.
Qed.

Lemma ranked_schema_gives_a_skeleton_witness :
  (exists obj, generateRequestSkeleton 2 orders ".shop.Order" = Some obj)
  /\ generateRequestSkeleton 2 orders ".shop.Order"
     = generateRequestSkeleton 7 orders ".shop.Order".
Proof.
  apply (ranked_schema_gives_a_skeleton orders ordersRank orders_ranked
           ".shop.Order" 2 7); cbn; lia.
Defined.

Lemma cyclic_schema_gives_no_skeleton_witness :
  generateRequestSkeleton 50 linked ".list.Node" = None.
Proof.
  apply (cyclic_schema_gives_no_skeleton linked (fun n => n = ".list.Node")).
  - intros fullName ->.
    exists (mkField "next" "Node" false (ResolvedType ".list.Node")), ".list.Node".
    repeat split. right. now left.
  - reflexivity.
Defined.

End SkeletonFacts.
